(** * perf-counter: a shallow embedding of [src/perf_counter.c]

    The C file wraps three kernel services (the [perf_event_open] system
    call, the [mmap] of the counter's metadata page, the group [ioctl]s) and,
    when built with libpfm, the translation of event names.

    Sequential code is modelled by explicit state passing over a [World]
    that records every call that leaves the process (the [trace]) and holds
    the function-scope static [current_state].  What the kernel and libpfm
    answer is not fixed by the C file, so every answer is read from a
    [Platform]: a family of functions of the history so far and of the
    arguments of the call.  All statements quantify over the platform.

    The one-time initialisation guard is also modelled as an interleaving
    machine ([Module OnceInit]) in which every atomic access to
    [current_state] is one step of one thread. *)

From Stdlib Require Import ZArith List Bool String Lia.
Import ListNotations.
Open Scope Z_scope.

(** ** Machine integers and pointers *)

(** The cast [(int32_t) x] of a wider signed value. *)
Definition to_int32 (z : Z) : Z := (z + 2 ^ 31) mod 2 ^ 32 - 2 ^ 31.

(** The cast [(size_t) x] on an LP64 target. *)
Definition to_size_t (z : Z) : Z := z mod 2 ^ 64.

(** Pointers are addresses; [NULL] is address zero and [MAP_FAILED] is
    [(void * ) -1]. *)
Definition NULL : Z := 0.
Definition MAP_FAILED : Z := -1.

(** ** Constants of the system headers the file includes *)

Definition _SC_PAGESIZE : Z := 30.
Definition PROT_READ : Z := 1.
Definition MAP_SHARED : Z := 1.
(** [_IO ('$', 0)] and [_IO ('$', 1)]. *)
Definition PERF_EVENT_IOC_ENABLE : Z := 9216.
Definition PERF_EVENT_IOC_DISABLE : Z := 9217.
Definition PERF_IOC_FLAG_GROUP : Z := 1.
Definition PFM_SUCCESS : Z := 0.
Definition PFM_PLM3 : Z := 8.
Definition PFM_OS_PERF_EVENT_EXT : Z := 2.

(** ** [struct perf_event_attr]

    The fields of the Linux UAPI structure.  The one-bit members
    ([disabled], [inherit], [pinned], ...) share one 64-bit word, kept here
    as [flags]; the positions below are the order of declaration of the
    members.  Members of a union are kept once, under their first name. *)
Record perf_event_attr : Type := mk_attr {
  type : Z;
  size : Z;
  config : Z;
  sample_period : Z;
  sample_type : Z;
  read_format : Z;
  flags : Z;
  wakeup_events : Z;
  bp_type : Z;
  config1 : Z;
  config2 : Z;
  branch_sample_type : Z;
  sample_regs_user : Z;
  sample_stack_user : Z;
  clockid : Z;
  sample_regs_intr : Z;
  aux_watermark : Z;
  sample_max_stack : Z;
  aux_sample_size : Z;
  sig_data : Z;
  config3 : Z
}.

Definition BIT_disabled : Z := 0.
Definition BIT_inherit : Z := 1.
Definition BIT_pinned : Z := 2.
Definition BIT_exclusive : Z := 3.
Definition BIT_exclude_user : Z := 4.
Definition BIT_exclude_kernel : Z := 5.
Definition BIT_exclude_hv : Z := 6.
Definition BIT_exclude_idle : Z := 7.
Definition BIT_mmap : Z := 8.
Definition BIT_comm : Z := 9.
Definition BIT_freq : Z := 10.

(** Reading a one-bit member. *)
Definition attr_bit (a : perf_event_attr) (i : Z) : bool := Z.testbit (flags a) i.

(** The assignment [attr.<member> = 1] to the one-bit member at position [i]. *)
Definition attr_set_bit (a : perf_event_attr) (i : Z) : perf_event_attr :=
  mk_attr (type a) (size a) (config a) (sample_period a) (sample_type a)
    (read_format a) (Z.lor (flags a) (Z.shiftl 1 i)) (wakeup_events a)
    (bp_type a) (config1 a) (config2 a) (branch_sample_type a)
    (sample_regs_user a) (sample_stack_user a) (clockid a)
    (sample_regs_intr a) (aux_watermark a) (sample_max_stack a)
    (aux_sample_size a) (sig_data a) (config3 a).

Definition attr_set_type (a : perf_event_attr) (v : Z) : perf_event_attr :=
  mk_attr v (size a) (config a) (sample_period a) (sample_type a)
    (read_format a) (flags a) (wakeup_events a)
    (bp_type a) (config1 a) (config2 a) (branch_sample_type a)
    (sample_regs_user a) (sample_stack_user a) (clockid a)
    (sample_regs_intr a) (aux_watermark a) (sample_max_stack a)
    (aux_sample_size a) (sig_data a) (config3 a).

Definition attr_set_size (a : perf_event_attr) (v : Z) : perf_event_attr :=
  mk_attr (type a) v (config a) (sample_period a) (sample_type a)
    (read_format a) (flags a) (wakeup_events a)
    (bp_type a) (config1 a) (config2 a) (branch_sample_type a)
    (sample_regs_user a) (sample_stack_user a) (clockid a)
    (sample_regs_intr a) (aux_watermark a) (sample_max_stack a)
    (aux_sample_size a) (sig_data a) (config3 a).

Definition attr_set_config (a : perf_event_attr) (v : Z) : perf_event_attr :=
  mk_attr (type a) (size a) v (sample_period a) (sample_type a)
    (read_format a) (flags a) (wakeup_events a)
    (bp_type a) (config1 a) (config2 a) (branch_sample_type a)
    (sample_regs_user a) (sample_stack_user a) (clockid a)
    (sample_regs_intr a) (aux_watermark a) (sample_max_stack a)
    (aux_sample_size a) (sig_data a) (config3 a).

(** The initialiser [= {0}]. *)
Definition attr_zero : perf_event_attr :=
  mk_attr 0 0 0 0 0 0 0 0 0 0 0 0 0 0 0 0 0 0 0 0 0.

(** Two descriptors agree on every member except the flag word. *)
Definition same_outside_flags (a b : perf_event_attr) : Prop :=
  mk_attr (type a) (size a) (config a) (sample_period a) (sample_type a)
    (read_format a) 0 (wakeup_events a)
    (bp_type a) (config1 a) (config2 a) (branch_sample_type a)
    (sample_regs_user a) (sample_stack_user a) (clockid a)
    (sample_regs_intr a) (aux_watermark a) (sample_max_stack a)
    (aux_sample_size a) (sig_data a) (config3 a)
  = mk_attr (type b) (size b) (config b) (sample_period b) (sample_type b)
    (read_format b) 0 (wakeup_events b)
    (bp_type b) (config1 b) (config2 b) (branch_sample_type b)
    (sample_regs_user b) (sample_stack_user b) (clockid b)
    (sample_regs_intr b) (aux_watermark b) (sample_max_stack b)
    (aux_sample_size b) (sig_data b) (config3 b).

(** ** The counter handle, [struct perf_counter] *)

Record perf_counter : Type := mk_pc {
  fd : Z;
  metadata_page : Z
}.

(** The value [(struct perf_counter){.fd = -1, .metadata_page = NULL}]. *)
Definition closed_handle : perf_counter := mk_pc (-1) NULL.

(** ** The outside world *)

(** The enumeration local to [ensure_libpfm_initialized]. *)
Inductive init_state : Type :=
| STATE_UNINITIALIZED
| STATE_IN_PROGRESS
| STATE_SUCCESS
| STATE_FAILED.

Definition init_state_eqb (a b : init_state) : bool :=
  match a, b with
  | STATE_UNINITIALIZED, STATE_UNINITIALIZED
  | STATE_IN_PROGRESS, STATE_IN_PROGRESS
  | STATE_SUCCESS, STATE_SUCCESS
  | STATE_FAILED, STATE_FAILED => true
  | _, _ => false
  end.

Definition terminal (s : init_state) : bool :=
  match s with
  | STATE_SUCCESS | STATE_FAILED => true
  | _ => false
  end.

(** Every call that leaves the process, with its arguments. *)
Inductive event : Type :=
| EvPerfEventOpen (attr : perf_event_attr) (pid cpu group_fd fl : Z)
| EvSysconf (name : Z)
| EvPerror (msg : string)
| EvMmap (addr len prot fl fd off : Z)
| EvMunmap (addr len : Z)
| EvClose (fd : Z)
| EvIoctl (fd req arg : Z)
| EvPfmInitialize
| EvPfmEncode (name : string) (plm os : Z) (attr : perf_event_attr).

(** What the kernel and libpfm answer, as functions of the history and of
    the arguments; [sizeof_perf_event_attr] is the size the headers of the
    build give the attribute structure. *)
Record Platform : Type := mk_platform {
  sizeof_perf_event_attr : Z;
  k_perf_event_open : list event -> perf_event_attr -> Z -> Z -> Z -> Z -> Z;
  k_sysconf : list event -> Z -> Z;
  k_mmap : list event -> Z -> Z -> Z -> Z -> Z -> Z -> Z;
  k_ioctl : list event -> Z -> Z -> Z -> Z;
  k_pfm_initialize : list event -> Z;
  k_pfm_get_os_event_encoding :
    list event -> string -> Z -> Z -> perf_event_attr -> Z * perf_event_attr
}.

(** The state of the process the file can observe or change: the calls made
    so far, oldest first, and the static [current_state]. *)
Record World : Type := mk_world {
  trace : list event;
  current_state : init_state
}.

Definition emit (e : event) (w : World) : World :=
  mk_world (trace w ++ [e]) (current_state w).

Definition set_state (s : init_state) (w : World) : World :=
  mk_world (trace w) s.

Definition initial_world : World := mk_world [] STATE_UNINITIALIZED.

(** ** The functions of [perf_counter.c], in program order *)

Section Program.

Variable P : Platform.

(** [sys_perf_event_open]: [pid = 0], [cpu = -1], [flags = 0]; the [long]
    the system call returns is cast to [int32_t]. *)
Definition sys_perf_event_open (attr : perf_event_attr) (group_fd : Z)
    (w : World) : Z * World :=
  (to_int32 (k_perf_event_open P (trace w) attr 0 (-1) group_fd 0),
   emit (EvPerfEventOpen attr 0 (-1) group_fd 0) w).

(** [get_page_size]: [-1] when [sysconf] answers less than one. *)
Definition get_page_size (w : World) : Z * World :=
  let page_size := k_sysconf P (trace w) _SC_PAGESIZE in
  let w1 := emit (EvSysconf _SC_PAGESIZE) w in
  if page_size <? 1
  then (-1, emit (EvPerror "sysconf(_SC_PAGESIZE)") w1)
  else (page_size, w1).

(** [mmap_perf_metadata_page]: [NULL] on either failure. *)
Definition mmap_perf_metadata_page (fd : Z) (w : World) : Z * World :=
  let (page_size, w1) := get_page_size w in
  if page_size <? 0 then (NULL, w1)
  else
    let len := to_size_t page_size in
    let mapped_area := k_mmap P (trace w1) NULL len PROT_READ MAP_SHARED fd 0 in
    let w2 := emit (EvMmap NULL len PROT_READ MAP_SHARED fd 0) w1 in
    if mapped_area =? MAP_FAILED
    then (NULL, emit (EvPerror "mmap") w2)
    else (mapped_area, w2).

Definition perf_counter_open (attr : perf_event_attr) (group_fd : Z)
    (w : World) : perf_counter * World :=
  let (fd, w1) := sys_perf_event_open attr group_fd w in
  if fd <? 0 then (mk_pc (-1) NULL, w1)
  else
    let (metadata_page, w2) := mmap_perf_metadata_page fd w1 in
    if metadata_page =? NULL
    then (mk_pc (-1) NULL, emit (EvClose fd) w2)
    else (mk_pc fd metadata_page, w2).

Definition perf_counter_open_by_id (event_type event_config group_fd : Z)
    (w : World) : perf_counter * World :=
  let attr := attr_zero in
  let attr := attr_set_size attr (sizeof_perf_event_attr P) in
  let attr := attr_set_type attr event_type in
  let attr := attr_set_config attr event_config in
  let attr := if group_fd =? -1 then attr_set_bit attr BIT_pinned else attr in
  let attr := attr_set_bit attr BIT_disabled in
  let attr := attr_set_bit attr BIT_exclude_kernel in
  let attr := attr_set_bit attr BIT_exclude_hv in
  perf_counter_open attr group_fd w.

(** [pfm_initialize ()]. *)
Definition pfm_initialize (w : World) : Z * World :=
  (k_pfm_initialize P (trace w), emit EvPfmInitialize w).

(** [ensure_libpfm_initialized] as one thread runs it with no other thread
    touching [current_state].  The compare-and-exchange succeeds exactly
    when the value is [STATE_UNINITIALIZED].  When it fails on
    [STATE_IN_PROGRESS] the loop at the end never exits, since nobody else
    stores: the result is [None]. *)
Definition ensure_libpfm_initialized (w : World) : option (bool * World) :=
  let current_value := current_state w in
  if init_state_eqb current_value STATE_SUCCESS then Some (true, w)
  else if init_state_eqb current_value STATE_FAILED then Some (false, w)
  else if init_state_eqb (current_state w) STATE_UNINITIALIZED then
    let w1 := set_state STATE_IN_PROGRESS w in
    let (r, w2) := pfm_initialize w1 in
    let result_state :=
      if r =? PFM_SUCCESS then STATE_SUCCESS else STATE_FAILED in
    Some (init_state_eqb result_state STATE_SUCCESS,
          set_state result_state w2)
  else if init_state_eqb (current_state w) STATE_IN_PROGRESS then None
  else Some (init_state_eqb (current_state w) STATE_SUCCESS, w).

(** [pfm_get_os_event_encoding (event_name, PFM_PLM3,
    PFM_OS_PERF_EVENT_EXT, &arg)] with [arg.attr = &attr]: the return code
    and the contents of [attr] afterwards. *)
Definition pfm_get_os_event_encoding (event_name : string)
    (attr : perf_event_attr) (w : World) : (Z * perf_event_attr) * World :=
  (k_pfm_get_os_event_encoding P (trace w) event_name PFM_PLM3
     PFM_OS_PERF_EVENT_EXT attr,
   emit (EvPfmEncode event_name PFM_PLM3 PFM_OS_PERF_EVENT_EXT attr) w).

Definition perf_counter_open_by_name (event_name : string) (group_fd : Z)
    (w : World) : option (perf_counter * World) :=
  match ensure_libpfm_initialized w with
  | None => None
  | Some (initialized, w1) =>
    if negb initialized then Some (mk_pc (-1) NULL, w1)
    else
      let attr := attr_zero in
      let attr := attr_set_size attr (sizeof_perf_event_attr P) in
      let '(ret, attr, w2) := pfm_get_os_event_encoding event_name attr w1 in
      if negb (ret =? PFM_SUCCESS) then Some (mk_pc (-1) NULL, w2)
      else
        let attr :=
          if group_fd =? -1 then attr_set_bit attr BIT_pinned else attr in
        let attr := attr_set_bit attr BIT_disabled in
        Some (perf_counter_open attr group_fd w2)
  end.

(** [perf_counter_close]: the handle behind the pointer before the call,
    the handle behind it after the call. *)
Definition perf_counter_close (pc : perf_counter) (w : World)
    : perf_counter * World :=
  let (pc1, w1) :=
    if negb (metadata_page pc =? NULL) then
      let (page_size, w') := get_page_size w in
      let w'' :=
        if 0 <? page_size
        then emit (EvMunmap (metadata_page pc) (to_size_t page_size)) w'
        else w' in
      (mk_pc (fd pc) NULL, w'')
    else (pc, w) in
  if negb (fd pc1 =? -1)
  then (mk_pc (-1) (metadata_page pc1), emit (EvClose (fd pc1)) w1)
  else (pc1, w1).

(** [perf_counter_enable] and [perf_counter_disable]: the value returned,
    the handle behind the pointer after the call, and the world. *)
Definition perf_counter_enable (pc : perf_counter) (w : World)
    : Z * perf_counter * World :=
  (k_ioctl P (trace w) (fd pc) PERF_EVENT_IOC_ENABLE PERF_IOC_FLAG_GROUP,
   pc,
   emit (EvIoctl (fd pc) PERF_EVENT_IOC_ENABLE PERF_IOC_FLAG_GROUP) w).

Definition perf_counter_disable (pc : perf_counter) (w : World)
    : Z * perf_counter * World :=
  (k_ioctl P (trace w) (fd pc) PERF_EVENT_IOC_DISABLE PERF_IOC_FLAG_GROUP,
   pc,
   emit (EvIoctl (fd pc) PERF_EVENT_IOC_DISABLE PERF_IOC_FLAG_GROUP) w).

End Program.

(** ** [ensure_libpfm_initialized] under concurrent callers

    The atomic operations of the function use the default, sequentially
    consistent ordering, so the accesses to [current_state] of all threads
    form one sequence.  A step of the machine is one thread performing its
    next access to [current_state] (or its call of [pfm_initialize])
    together with the local code that follows it. *)

Module OnceInit.

(** Where a thread stands inside [ensure_libpfm_initialized]. *)
Inductive pc : Type :=
| Idle                          (* outside the function *)
| AtCas                         (* before the compare-and-exchange *)
| AtInit                        (* exchange won, before [pfm_initialize ()] *)
| AtStore (result_state : init_state)  (* before [atomic_store] *)
| Spin                          (* before the load of the [while] test *)
| AtFinal.                      (* before the load of the last [return] *)

(** The shared variable, the threads, and a record of what has happened:
    who won the exchange, the calls of [pfm_initialize] with their return
    codes, the stores of a result, and the values returned to callers. *)
Record sys : Type := mk_sys {
  shared : init_state;
  threads : nat -> pc;
  cas_winners : list nat;
  init_calls : list (nat * Z);
  published : list (nat * init_state);
  returned : list (nat * bool)
}.

Definition upd (f : nat -> pc) (t : nat) (p : pc) : nat -> pc :=
  fun t' => if Nat.eqb t' t then p else f t'.

Definition init : sys := mk_sys STATE_UNINITIALIZED (fun _ => Idle) [] [] [] [].

(** One step of thread [t]; [r] is what [pfm_initialize] returns should
    this step be the call. *)
Definition step (t : nat) (r : Z) (s : sys) : sys :=
  match threads s t with
  | Idle =>
      (* entry: [current_value = atomic_load (&current_state)] *)
      match shared s with
      | STATE_SUCCESS =>
          mk_sys (shared s) (threads s) (cas_winners s) (init_calls s)
            (published s) (returned s ++ [(t, true)])
      | STATE_FAILED =>
          mk_sys (shared s) (threads s) (cas_winners s) (init_calls s)
            (published s) (returned s ++ [(t, false)])
      | _ =>
          mk_sys (shared s) (upd (threads s) t AtCas) (cas_winners s)
            (init_calls s) (published s) (returned s)
      end
  | AtCas =>
      match shared s with
      | STATE_UNINITIALIZED =>
          mk_sys STATE_IN_PROGRESS (upd (threads s) t AtInit)
            (cas_winners s ++ [t]) (init_calls s) (published s) (returned s)
      | _ =>
          mk_sys (shared s) (upd (threads s) t Spin) (cas_winners s)
            (init_calls s) (published s) (returned s)
      end
  | AtInit =>
      mk_sys (shared s)
        (upd (threads s) t
           (AtStore (if r =? PFM_SUCCESS then STATE_SUCCESS else STATE_FAILED)))
        (cas_winners s) (init_calls s ++ [(t, r)]) (published s) (returned s)
  | AtStore result_state =>
      mk_sys result_state (upd (threads s) t Idle) (cas_winners s)
        (init_calls s) (published s ++ [(t, result_state)])
        (returned s ++ [(t, init_state_eqb result_state STATE_SUCCESS)])
  | Spin =>
      match shared s with
      | STATE_IN_PROGRESS => s
      | _ =>
          mk_sys (shared s) (upd (threads s) t AtFinal) (cas_winners s)
            (init_calls s) (published s) (returned s)
      end
  | AtFinal =>
      mk_sys (shared s) (upd (threads s) t Idle) (cas_winners s)
        (init_calls s) (published s)
        (returned s ++ [(t, init_state_eqb (shared s) STATE_SUCCESS)])
  end.

(** A history is the sequence of threads that take a step, oldest first. *)
Fixpoint run (sched : list (nat * Z)) (s : sys) : sys :=
  match sched with
  | [] => s
  | (t, r) :: rest => run rest (step t r s)
  end.

(** A thread that has won the exchange and not yet stored. *)
Definition initializing (p : pc) : bool :=
  match p with
  | AtInit | AtStore _ => true
  | _ => false
  end.

Definition result_of (r : Z) : init_state :=
  if r =? PFM_SUCCESS then STATE_SUCCESS else STATE_FAILED.

(** What holds in every state the machine reaches, by value of the shared
    variable. *)
Definition Inv (s : sys) : Prop :=
  match shared s with
  | STATE_UNINITIALIZED =>
      cas_winners s = [] /\ init_calls s = [] /\ published s = [] /\
      returned s = [] /\
      forall t, threads s t = Idle \/ threads s t = AtCas
  | STATE_IN_PROGRESS =>
      exists w,
        cas_winners s = [w] /\ published s = [] /\ returned s = [] /\
        (forall t, t <> w ->
           threads s t = Idle \/ threads s t = AtCas \/ threads s t = Spin) /\
        ((threads s w = AtInit /\ init_calls s = []) \/
         (exists r, threads s w = AtStore (result_of r) /\
                    init_calls s = [(w, r)]))
  | T =>
      exists w r,
        cas_winners s = [w] /\ init_calls s = [(w, r)] /\
        published s = [(w, T)] /\ T = result_of r /\
        (forall t, initializing (threads s t) = false) /\
        (forall t b, In (t, b) (returned s) ->
           b = init_state_eqb T STATE_SUCCESS)
  end.

End OnceInit.

(** ** Vocabulary of the statements *)

(** The two states a caller may see a handle in. *)
Definition fully_open (h : perf_counter) : Prop :=
  0 <= fd h /\ metadata_page h <> NULL.

Definition fully_closed (h : perf_counter) : Prop :=
  fd h = -1 /\ metadata_page h = NULL.

(** The calls made between world [w] and a later world [w']. *)
Definition since (w w' : World) : list event :=
  skipn (List.length (trace w)) (trace w').

Definition is_gateway_call (e : event) : bool :=
  match e with EvPerfEventOpen _ _ _ _ _ => true | _ => false end.

Definition is_munmap (e : event) : bool :=
  match e with EvMunmap _ _ => true | _ => false end.

Definition is_pfm_initialize (e : event) : bool :=
  match e with EvPfmInitialize => true | _ => false end.

(** The calls of the system-call gateway among [l], in order. *)
Definition gateway_calls (l : list event) : list event :=
  filter is_gateway_call l.

(** A sequential history of the process: calls of the public functions with
    arbitrary arguments. *)
Inductive call : Type :=
| CallOpen (attr : perf_event_attr) (group_fd : Z)
| CallOpenById (event_type event_config group_fd : Z)
| CallOpenByName (event_name : string) (group_fd : Z)
| CallClose (pc : perf_counter)
| CallEnable (pc : perf_counter)
| CallDisable (pc : perf_counter).

Definition do_call (P : Platform) (c : call) (w : World) : option World :=
  match c with
  | CallOpen attr g => Some (snd (perf_counter_open P attr g w))
  | CallOpenById ty cfg g => Some (snd (perf_counter_open_by_id P ty cfg g w))
  | CallOpenByName name g =>
      match perf_counter_open_by_name P name g w with
      | Some (_, w') => Some w'
      | None => None
      end
  | CallClose pc => Some (snd (perf_counter_close P pc w))
  | CallEnable pc => Some (snd (perf_counter_enable P pc w))
  | CallDisable pc => Some (snd (perf_counter_disable P pc w))
  end.

Fixpoint do_calls (P : Platform) (cs : list call) (w : World) : option World :=
  match cs with
  | [] => Some w
  | c :: rest =>
      match do_call P c w with
      | Some w' => do_calls P rest w'
      | None => None
      end
  end.

(** The pairing of the two fields of a handle: open or closed, and the
    mapping present exactly when the descriptor is valid. *)
Definition paired (h : perf_counter) : Prop :=
  (fully_open h \/ fully_closed h) /\
  (metadata_page h <> NULL <-> 0 <= fd h).

(** A platform whose answers do not depend on the history: the gateway
    answers [open_ret], [sysconf] answers [page_size], [mmap] answers
    [mmap_ret], [ioctl] answers [ioctl_ret], [pfm_initialize] answers
    [init_ret], and the translation answers [enc_ret] and leaves [enc_attr]
    in the descriptor. *)
Definition const_platform (open_ret page_size mmap_ret ioctl_ret init_ret
    enc_ret : Z) (enc_attr : perf_event_attr) : Platform :=
  mk_platform 136
    (fun _ _ _ _ _ _ => open_ret)
    (fun _ _ => page_size)
    (fun _ _ _ _ _ _ _ => mmap_ret)
    (fun _ _ _ _ => ioctl_ret)
    (fun _ => init_ret)
    (fun _ _ _ _ _ => (enc_ret, enc_attr)).

Definition is_close (e : event) : bool :=
  match e with EvClose _ => true | _ => false end.

(** The fixed arguments of the outside calls: the gateway is called for the
    calling process ([pid = 0]) on any CPU ([cpu = -1]) with no flags; a
    mapping is requested at no fixed address, read-only, shared, from offset
    zero; a control request is [ENABLE] or [DISABLE] with the group flag; a
    translation is asked for user level only through the extended
    perf_event layer; [sysconf] is asked for the page size only. *)
Definition event_ok (e : event) : bool :=
  match e with
  | EvPerfEventOpen _ pid cpu _ fl => (pid =? 0) && (cpu =? -1) && (fl =? 0)
  | EvMmap addr _ prot fl _ off =>
      (addr =? NULL) && (prot =? PROT_READ) && (fl =? MAP_SHARED) && (off =? 0)
  | EvIoctl _ req arg =>
      ((req =? PERF_EVENT_IOC_ENABLE) || (req =? PERF_EVENT_IOC_DISABLE)) &&
      (arg =? PERF_IOC_FLAG_GROUP)
  | EvPfmEncode _ plm os _ => (plm =? PFM_PLM3) && (os =? PFM_OS_PERF_EVENT_EXT)
  | EvSysconf name => name =? _SC_PAGESIZE
  | _ => true
  end.

(** What a sequential history keeps true of the guard: [pfm_initialize] has
    been called exactly when the state has left [STATE_UNINITIALIZED], then
    once, and the state is never left at [STATE_IN_PROGRESS]. *)
Definition guard_settled (w : World) : Prop :=
  match current_state w with
  | STATE_UNINITIALIZED => filter is_pfm_initialize (trace w) = []
  | STATE_IN_PROGRESS => False
  | _ => filter is_pfm_initialize (trace w) = [EvPfmInitialize]
  end.

(** * Properties *)

(** ** Arithmetic of the casts and of the flag word *)

Lemma to_int32_range z : - 2 ^ 31 <= to_int32 z < 2 ^ 31.
Proof.
  unfold to_int32.
  pose proof (Z.mod_pos_bound (z + 2 ^ 31) (2 ^ 32) ltac:(lia)). lia.
Qed.

Lemma attr_bit_set_same a i : 0 <= i -> attr_bit (attr_set_bit a i) i = true.
Proof.
  intros Hi. unfold attr_bit, attr_set_bit; simpl.
  rewrite Z.lor_spec, Z.shiftl_spec by assumption.
  rewrite Z.sub_diag. simpl. apply orb_true_r.
Qed.

Lemma attr_bit_set_other a i j :
  0 <= i -> i <> j -> attr_bit (attr_set_bit a i) j = attr_bit a j.
Proof.
  intros Hi Hij. unfold attr_bit, attr_set_bit; simpl.
  rewrite Z.lor_spec.
  destruct (Z.ltb_spec j 0) as [Hj|Hj].
  - rewrite !Z.testbit_neg_r by assumption. reflexivity.
  - rewrite Z.shiftl_spec by assumption.
    replace (Z.testbit 1 (j - i)) with false; [apply orb_false_r|].
    symmetry. destruct (Z.ltb_spec (j - i) 0).
    + apply Z.testbit_neg_r; assumption.
    + change 1 with (2 ^ 0). apply Z.pow2_bits_false. lia.
Qed.

Lemma same_outside_flags_set_bit a i : same_outside_flags a (attr_set_bit a i).
Proof. reflexivity. Qed.

Lemma same_outside_flags_trans a b c :
  same_outside_flags a b -> same_outside_flags b c -> same_outside_flags a c.
Proof. unfold same_outside_flags. intros H1 H2. exact (eq_trans H1 H2). Qed.

(** ** Shape of the traces *)

Lemma since_app w w' d : trace w' = trace w ++ d -> since w w' = d.
Proof.
  intros H. unfold since. rewrite H. rewrite skipn_app, skipn_all, Nat.sub_diag.
  reflexivity.
Qed.

Lemma since_refl w : since w w = [].
Proof. apply since_app. symmetry. apply app_nil_r. Qed.

Lemma trace_emit e w : trace (emit e w) = trace w ++ [e].
Proof. reflexivity. Qed.

Lemma current_state_emit e w : current_state (emit e w) = current_state w.
Proof. reflexivity. Qed.

Section Traces.

Variable P : Platform.

(** [get_page_size] answers [-1] or a positive size, and only asks
    [sysconf]. *)
Lemma get_page_size_cases w :
  let ps := k_sysconf P (trace w) _SC_PAGESIZE in
  (ps < 1 /\
   get_page_size P w =
     (-1, emit (EvPerror "sysconf(_SC_PAGESIZE)") (emit (EvSysconf _SC_PAGESIZE) w)))
  \/ (1 <= ps /\ get_page_size P w = (ps, emit (EvSysconf _SC_PAGESIZE) w)).
Proof.
  intros ps. unfold get_page_size. fold ps.
  destruct (Z.ltb_spec ps 1); [left|right]; split; auto.
Qed.

(** What [mmap_perf_metadata_page] adds to the trace: no gateway call, no
    [close], and the shared variable is untouched. *)
Lemma mmap_perf_metadata_page_trace fd0 w :
  exists d,
    trace (snd (mmap_perf_metadata_page P fd0 w)) = trace w ++ d /\
    gateway_calls d = [] /\
    (forall x, ~ In (EvClose x) d) /\
    filter is_pfm_initialize d = [] /\
    current_state (snd (mmap_perf_metadata_page P fd0 w)) = current_state w.
Proof.
  unfold mmap_perf_metadata_page.
  destruct (get_page_size_cases w) as [[Hps E]|[Hps E]]; rewrite E; clear E.
  - simpl. eexists. split; [rewrite <- app_assoc; reflexivity|].
    simpl. repeat split; auto. intros x [H|[H|[]]]; discriminate.
  - destruct (Z.ltb_spec (k_sysconf P (trace w) _SC_PAGESIZE) 0); [lia|].
    match goal with |- context [if ?c then _ else _] => destruct c end; simpl.
    + eexists. split; [rewrite <- !app_assoc; reflexivity|].
      simpl. repeat split; auto. intros x [H'|[H'|[H'|[]]]]; discriminate.
    + eexists. split; [rewrite <- !app_assoc; reflexivity|].
      simpl. repeat split; auto. intros x [H'|[H'|[]]]; discriminate.
Qed.

(** [perf_counter_open] calls the gateway exactly once, first, with the
    descriptor it was given. *)
Lemma perf_counter_open_trace attr g w :
  exists d,
    trace (snd (perf_counter_open P attr g w)) =
      trace w ++ EvPerfEventOpen attr 0 (-1) g 0 :: d /\
    gateway_calls d = [] /\
    filter is_pfm_initialize d = [] /\
    current_state (snd (perf_counter_open P attr g w)) = current_state w.
Proof.
  unfold perf_counter_open, sys_perf_event_open.
  set (fd0 := to_int32 _).
  destruct (fd0 <? 0).
  - exists []. simpl. auto.
  - destruct (mmap_perf_metadata_page_trace fd0
                (emit (EvPerfEventOpen attr 0 (-1) g 0) w))
      as (d & Ht & Hg & _ & Hi & Hs).
    destruct (mmap_perf_metadata_page P fd0 _) as [page w2]; simpl in *.
    destruct (page =? NULL); simpl.
    + exists (d ++ [EvClose fd0]). rewrite Ht, <- !app_assoc. simpl.
      unfold gateway_calls in *. rewrite !filter_app, Hg, Hi. simpl. auto.
    + exists d. rewrite Ht, <- !app_assoc. simpl. auto.
Qed.

Lemma gateway_calls_open attr g w :
  gateway_calls (since w (snd (perf_counter_open P attr g w))) =
    [EvPerfEventOpen attr 0 (-1) g 0].
Proof.
  destruct (perf_counter_open_trace attr g w) as (d & Ht & Hg & _).
  rewrite (since_app _ _ _ Ht). unfold gateway_calls in *. simpl.
  rewrite Hg. reflexivity.
Qed.

(** The handle [perf_counter_open] returns. *)
Lemma perf_counter_open_handle attr g w :
  let h := fst (perf_counter_open P attr g w) in
  fully_open h \/ h = closed_handle.
Proof.
  unfold perf_counter_open, sys_perf_event_open.
  set (fd0 := to_int32 _).
  destruct (Z.ltb_spec fd0 0); simpl; [right; reflexivity|].
  destruct (mmap_perf_metadata_page P fd0 _) as [page w2].
  destruct (Z.eqb_spec page NULL); simpl; [right; reflexivity|].
  left. split; assumption.
Qed.

End Traces.

(** ** The sequential run of the initialisation guard *)

Lemma ensure_libpfm_initialized_cases (P : Platform) w :
  match current_state w with
  | STATE_SUCCESS => ensure_libpfm_initialized P w = Some (true, w)
  | STATE_FAILED => ensure_libpfm_initialized P w = Some (false, w)
  | STATE_IN_PROGRESS => ensure_libpfm_initialized P w = None
  | STATE_UNINITIALIZED =>
      let r := k_pfm_initialize P (trace w) in
      ensure_libpfm_initialized P w =
        Some (r =? PFM_SUCCESS,
              mk_world (trace w ++ [EvPfmInitialize])
                (if r =? PFM_SUCCESS then STATE_SUCCESS else STATE_FAILED))
  end.
Proof.
  unfold ensure_libpfm_initialized.
  destruct (current_state w) eqn:E; simpl; try reflexivity.
  destruct (k_pfm_initialize P (trace w) =? PFM_SUCCESS); reflexivity.
Qed.

(** When the guard returns, it has made no call other than, at most, the
    one of [pfm_initialize], and it returns [true] exactly when it leaves
    [STATE_SUCCESS] behind. *)
Lemma ensure_libpfm_initialized_result (P : Platform) w b w1 :
  ensure_libpfm_initialized P w = Some (b, w1) ->
  exists d,
    trace w1 = trace w ++ d /\ gateway_calls d = [] /\
    current_state w1 = (if b then STATE_SUCCESS else STATE_FAILED) /\
    (terminal (current_state w) = true -> w1 = w).
Proof.
  intros H. pose proof (ensure_libpfm_initialized_cases P w) as C.
  destruct (current_state w) eqn:E; simpl in C; rewrite C in H;
    try discriminate; inversion H; subst; clear H.
  - exists [EvPfmInitialize]. simpl.
    destruct (k_pfm_initialize P (trace w) =? PFM_SUCCESS);
      repeat split; auto; discriminate.
  - exists []. rewrite app_nil_r. auto.
  - exists []. rewrite app_nil_r. auto.
Qed.

Lemma paired_closed : paired closed_handle.
Proof.
  unfold paired, fully_open, fully_closed, closed_handle, NULL; simpl.
  split; [right; split; reflexivity|]. split; [congruence|lia].
Qed.

Lemma paired_open h : fully_open h -> paired h.
Proof.
  unfold paired, fully_open. intros [H1 H2].
  split; [left; split; assumption|]. split; auto.
Qed.

Lemma perf_counter_open_paired (P : Platform) attr g w :
  paired (fst (perf_counter_open P attr g w)).
Proof.
  destruct (perf_counter_open_handle P attr g w) as [H|H].
  - apply paired_open, H.
  - rewrite H. apply paired_closed.
Qed.

(** C1. Each of [perf_counter_open], [perf_counter_open_by_id] and
    [perf_counter_open_by_name] returns a handle that is fully open
    (descriptor at least zero, mapping not null) or fully closed (descriptor
    [-1], mapping null), and whose mapping is not null exactly when the
    descriptor is valid.  The first two always return; the third returns
    unless it is left spinning on [STATE_IN_PROGRESS]. *)
Theorem constructors_return_paired_handle (P : Platform) :
  (forall attr g w, paired (fst (perf_counter_open P attr g w))) /\
  (forall ty cfg g w, paired (fst (perf_counter_open_by_id P ty cfg g w))) /\
  (forall name g w,
     match perf_counter_open_by_name P name g w with
     | Some (h, _) => paired h
     | None => current_state w = STATE_IN_PROGRESS
     end).
Proof.
  split; [|split].
  - intros. apply perf_counter_open_paired.
  - intros. unfold perf_counter_open_by_id. apply perf_counter_open_paired.
  - intros name g w. unfold perf_counter_open_by_name.
    pose proof (ensure_libpfm_initialized_cases P w) as C.
    destruct (ensure_libpfm_initialized P w) as [[b w1]|] eqn:E.
    + destruct b; simpl; [|apply paired_closed].
      unfold pfm_get_os_event_encoding.
      destruct (k_pfm_get_os_event_encoding P _ _ _ _ _) as [ret a].
      destruct (ret =? PFM_SUCCESS); simpl; [|apply paired_closed].
      match goal with
      | |- match ?x with _ => _ end =>
          pose proof (perf_counter_open_paired P
                        (attr_set_bit
                           (if g =? -1 then attr_set_bit a BIT_pinned else a)
                           BIT_disabled) g
                        (emit (EvPfmEncode name PFM_PLM3 PFM_OS_PERF_EVENT_EXT
                                 (attr_set_size attr_zero
                                    (sizeof_perf_event_attr P))) w1)) as Hp
      end.
      destruct (perf_counter_open P _ g _) as [h w']. exact Hp.
    + destruct (current_state w); simpl in C; congruence.
Qed.

(** C2. When the gateway yields a descriptor [fd0 >= 0] and the mapping
    then fails, because the page size query fails or because [mmap] answers
    [MAP_FAILED], [perf_counter_open] returns the closed pair and the last
    thing it does is [close (fd0)]. *)
Theorem open_releases_descriptor_when_mapping_fails
    (P : Platform) attr g w :
  let fd0 := fst (sys_perf_event_open P attr g w) in
  let w1 := snd (sys_perf_event_open P attr g w) in
  let ps := get_page_size P w1 in
  0 <= fd0 ->
  fst ps < 0 \/
  k_mmap P (trace (snd ps)) NULL (to_size_t (fst ps)) PROT_READ MAP_SHARED
    fd0 0 = MAP_FAILED ->
  fst (perf_counter_open P attr g w) = closed_handle /\
  snd (perf_counter_open P attr g w) =
    emit (EvClose fd0) (snd (mmap_perf_metadata_page P fd0 w1)) /\
  exists d,
    since w (snd (perf_counter_open P attr g w)) =
      EvPerfEventOpen attr 0 (-1) g 0 :: d ++ [EvClose fd0] /\
    forall x, ~ In (EvClose x) d.
Proof.
  intros fd0 w1 ps Hfd Hfail.
  assert (Hnull : fst (mmap_perf_metadata_page P fd0 w1) = NULL).
  { unfold mmap_perf_metadata_page. fold ps.
    destruct ps as [page_size w2] eqn:Eps. simpl in Hfail.
    destruct (Z.ltb_spec page_size 0); [reflexivity|].
    destruct Hfail as [Hf|Hf]; [lia|]. rewrite Hf. reflexivity. }
  destruct (mmap_perf_metadata_page_trace P fd0 w1) as (d & Ht & _ & Hc & _).
  unfold perf_counter_open.
  change (sys_perf_event_open P attr g w) with (fd0, w1). cbv iota beta.
  destruct (Z.ltb_spec fd0 0); [lia|].
  destruct (mmap_perf_metadata_page P fd0 w1) as [page w2]. simpl in *.
  subst page. simpl. split; [reflexivity|]. split; [reflexivity|].
  exists d. split; [|exact Hc].
  apply since_app. simpl. rewrite Ht. subst w1. simpl.
  rewrite <- !app_assoc. reflexivity.
Qed.

Lemma open_releases_descriptor_when_mapping_fails_witness :
  let P := const_platform 3 4096 MAP_FAILED 0 0 0 attr_zero in
  fst (perf_counter_open P attr_zero (-1) initial_world) = closed_handle /\
  In (EvClose 3) (trace (snd (perf_counter_open P attr_zero (-1) initial_world))).
Proof.
  intros P.
  pose proof (open_releases_descriptor_when_mapping_fails P attr_zero (-1)
                initial_world) as H.
  cbv zeta in H. destruct H as (H1 & H2 & _).
  - vm_compute. discriminate.
  - right. reflexivity.
  - split; [exact H1|]. rewrite H2. vm_compute. auto 10.
Defined.

(** ** Teardown *)

Lemma perf_counter_close_closed (P : Platform) w :
  perf_counter_close P closed_handle w = (closed_handle, w).
Proof. reflexivity. Qed.

Lemma perf_counter_close_handle (P : Platform) pc w :
  fst (perf_counter_close P pc w) = closed_handle.
Proof.
  unfold perf_counter_close, closed_handle.
  destruct (Z.eqb_spec (metadata_page pc) NULL) as [Hp|Hp]; simpl.
  - destruct (Z.eqb_spec (fd pc) (-1)) as [Hf|Hf]; simpl.
    + destruct pc; simpl in *; congruence.
    + congruence.
  - destruct (get_page_size P w) as [page_size w']. simpl.
    destruct (Z.eqb_spec (fd pc) (-1)) as [Hf|Hf]; simpl; congruence.
Qed.

(** C3. Whatever the handle, [perf_counter_close] leaves the closed pair
    behind the pointer.  On the closed pair it makes no call at all and
    leaves handle and world as they were, so closing a second time changes
    nothing. *)
Theorem close_resets_and_is_idempotent (P : Platform) :
  (forall pc w, fst (perf_counter_close P pc w) = closed_handle) /\
  (forall w,
     perf_counter_close P closed_handle w = (closed_handle, w) /\
     since w (snd (perf_counter_close P closed_handle w)) = []) /\
  (forall pc w,
     perf_counter_close P (fst (perf_counter_close P pc w))
       (snd (perf_counter_close P pc w)) = perf_counter_close P pc w).
Proof.
  split; [|split].
  - apply perf_counter_close_handle.
  - intros w. rewrite perf_counter_close_closed. split; [reflexivity|].
    apply since_refl.
  - intros pc w. pose proof (perf_counter_close_handle P pc w) as H.
    destruct (perf_counter_close P pc w) as [pc1 w1]. simpl in *. subst pc1.
    apply perf_counter_close_closed.
Qed.

(** C8. With a mapping present and the page size query failing,
    [perf_counter_close] issues no [munmap]; it still closes the descriptor
    when that is not [-1], and still leaves the closed pair. *)
Theorem close_skips_unmap_when_page_size_unknown (P : Platform) pc w :
  metadata_page pc <> NULL ->
  k_sysconf P (trace w) _SC_PAGESIZE < 1 ->
  fst (perf_counter_close P pc w) = closed_handle /\
  filter is_munmap (since w (snd (perf_counter_close P pc w))) = [] /\
  since w (snd (perf_counter_close P pc w)) =
    [EvSysconf _SC_PAGESIZE; EvPerror "sysconf(_SC_PAGESIZE)"] ++
    (if fd pc =? -1 then [] else [EvClose (fd pc)]).
Proof.
  intros Hp Hps. split; [apply perf_counter_close_handle|].
  assert (E : since w (snd (perf_counter_close P pc w)) =
    [EvSysconf _SC_PAGESIZE; EvPerror "sysconf(_SC_PAGESIZE)"] ++
    (if fd pc =? -1 then [] else [EvClose (fd pc)])).
  { unfold perf_counter_close.
    destruct (Z.eqb_spec (metadata_page pc) NULL) as [Hp'|_]; [contradiction|].
    simpl negb. cbv iota.
    destruct (get_page_size_cases P w) as [[_ E]|[Hge _]]; [|simpl in Hge; lia].
    rewrite E. simpl.
    destruct (fd pc =? -1); simpl; apply since_app; simpl;
      rewrite <- ?app_assoc; reflexivity. }
  split; [|exact E]. rewrite E. destruct (fd pc =? -1); reflexivity.
Qed.

Lemma close_skips_unmap_when_page_size_unknown_witness :
  let P := const_platform 3 0 4096 0 0 0 attr_zero in
  perf_counter_close P (mk_pc 3 4096) initial_world =
    (closed_handle,
     mk_world [EvSysconf _SC_PAGESIZE; EvPerror "sysconf(_SC_PAGESIZE)";
               EvClose 3] STATE_UNINITIALIZED).
Proof.
  intros P.
  destruct (close_skips_unmap_when_page_size_unknown P (mk_pc 3 4096)
              initial_world) as (H1 & H2 & H3).
  - simpl. unfold NULL. lia.
  - simpl. lia.
  - reflexivity.
Defined.

(** ** Control requests *)

(** C9. [perf_counter_enable] and [perf_counter_disable] leave the handle
    as it was, make exactly one call, the group-wide [ioctl] on the handle's
    descriptor, and return what the kernel answered to that call. *)
Theorem enable_disable_frame (P : Platform) pc w :
  (let '(ret, pc', w') := perf_counter_enable P pc w in
   pc' = pc /\
   since w w' = [EvIoctl (fd pc) PERF_EVENT_IOC_ENABLE PERF_IOC_FLAG_GROUP] /\
   ret = k_ioctl P (trace w) (fd pc) PERF_EVENT_IOC_ENABLE PERF_IOC_FLAG_GROUP /\
   current_state w' = current_state w) /\
  (let '(ret, pc', w') := perf_counter_disable P pc w in
   pc' = pc /\
   since w w' = [EvIoctl (fd pc) PERF_EVENT_IOC_DISABLE PERF_IOC_FLAG_GROUP] /\
   ret = k_ioctl P (trace w) (fd pc) PERF_EVENT_IOC_DISABLE PERF_IOC_FLAG_GROUP /\
   current_state w' = current_state w).
Proof.
  unfold perf_counter_enable, perf_counter_disable.
  split; (split; [reflexivity|]); (split; [|split; reflexivity]);
    apply since_app; reflexivity.
Qed.

(** ** The descriptor built from a numeric event *)

Lemma bits_of_101 i :
  Z.testbit 101 i = true -> i = 0 \/ i = 2 \/ i = 5 \/ i = 6.
Proof.
  intros H. destruct (Z.ltb_spec i 0) as [Hn|Hn].
  - rewrite Z.testbit_neg_r in H by assumption. discriminate.
  - destruct (Z.ltb_spec i 7) as [Hs|Hs].
    + assert (Hc : i = 0 \/ i = 1 \/ i = 2 \/ i = 3 \/ i = 4 \/ i = 5 \/ i = 6)
        by lia.
      destruct Hc as [->|[->|[->|[->|[->|[->| ->]]]]]];
        try (vm_compute in H; discriminate); auto.
    + rewrite Z.bits_above_log2 in H; [discriminate|lia|].
      change (Z.log2 101) with 6. lia.
Qed.

Lemma bits_of_97 i : Z.testbit 97 i = true -> i = 0 \/ i = 5 \/ i = 6.
Proof.
  intros H. destruct (Z.ltb_spec i 0) as [Hn|Hn].
  - rewrite Z.testbit_neg_r in H by assumption. discriminate.
  - destruct (Z.ltb_spec i 7) as [Hs|Hs].
    + assert (Hc : i = 0 \/ i = 1 \/ i = 2 \/ i = 3 \/ i = 4 \/ i = 5 \/ i = 6)
        by lia.
      destruct Hc as [->|[->|[->|[->|[->|[->| ->]]]]]];
        try (vm_compute in H; discriminate); auto.
    + rewrite Z.bits_above_log2 in H; [discriminate|lia|].
      change (Z.log2 97) with 6. lia.
Qed.

(** C4. The descriptor [perf_counter_open_by_id] hands to the gateway has
    the given type and config, has [disabled], [exclude_kernel] and
    [exclude_hv] set, and has [pinned] set exactly when the group descriptor
    is [-1]. *)
Theorem open_by_id_attribute_policy (P : Platform) ty cfg g w :
  exists a,
    gateway_calls (since w (snd (perf_counter_open_by_id P ty cfg g w))) =
      [EvPerfEventOpen a 0 (-1) g 0] /\
    type a = ty /\ config a = cfg /\
    attr_bit a BIT_disabled = true /\
    attr_bit a BIT_exclude_kernel = true /\
    attr_bit a BIT_exclude_hv = true /\
    (attr_bit a BIT_pinned = true <-> g = -1).
Proof.
  unfold perf_counter_open_by_id. eexists.
  split; [apply gateway_calls_open|].
  destruct (Z.eqb_spec g (-1)) as [Hg|Hg].
  - repeat split; auto.
  - repeat split; auto; try discriminate.
Qed.

(** C10. The descriptor [perf_counter_open_by_id] hands to the gateway is
    given by a closed form in the event type, the event config and the
    group descriptor (and the size of the structure): neither the world nor
    any answer of the platform enters it.  Its flag word has no bit set
    other than [disabled], [pinned], [exclude_kernel] and [exclude_hv], and
    every other member is zero; so the sampling period is zero and
    [inherit], [mmap] and [comm] are clear. *)
Theorem open_by_id_attribute_closed_form (P : Platform) ty cfg g w :
  let a :=
    mk_attr ty (sizeof_perf_event_attr P) cfg 0 0 0
      (if g =? -1 then 101 else 97) 0 0 0 0 0 0 0 0 0 0 0 0 0 0 in
  gateway_calls (since w (snd (perf_counter_open_by_id P ty cfg g w))) =
    [EvPerfEventOpen a 0 (-1) g 0] /\
  (forall i, attr_bit a i = true ->
     i = BIT_disabled \/ i = BIT_pinned \/ i = BIT_exclude_kernel \/
     i = BIT_exclude_hv) /\
  sample_period a = 0 /\
  attr_bit a BIT_inherit = false /\
  attr_bit a BIT_mmap = false /\
  attr_bit a BIT_comm = false /\
  (forall w',
     gateway_calls (since w' (snd (perf_counter_open_by_id P ty cfg g w'))) =
     gateway_calls (since w (snd (perf_counter_open_by_id P ty cfg g w)))).
Proof.
  intros a.
  assert (E : forall w0,
    gateway_calls (since w0 (snd (perf_counter_open_by_id P ty cfg g w0))) =
      [EvPerfEventOpen a 0 (-1) g 0]).
  { intros w0. unfold perf_counter_open_by_id. rewrite gateway_calls_open.
    subst a. destruct (g =? -1); reflexivity. }
  split; [apply E|]. split.
  - intros i. subst a. unfold attr_bit, BIT_disabled, BIT_pinned,
      BIT_exclude_kernel, BIT_exclude_hv. simpl.
    destruct (g =? -1); intros H.
    + apply bits_of_101 in H. tauto.
    + apply bits_of_97 in H. tauto.
  - subst a. unfold attr_bit; simpl.
    repeat split; try (destruct (g =? -1); reflexivity).
    intros w'. rewrite !E. reflexivity.
Qed.

(** ** Opening by name *)

Lemma perf_counter_close_trace (P : Platform) pc w :
  exists d,
    trace (snd (perf_counter_close P pc w)) = trace w ++ d /\
    gateway_calls d = [] /\
    filter is_pfm_initialize d = [] /\
    current_state (snd (perf_counter_close P pc w)) = current_state w.
Proof.
  unfold perf_counter_close.
  destruct (metadata_page pc =? NULL); simpl.
  - destruct (fd pc =? -1); simpl.
    + exists []. rewrite app_nil_r. auto.
    + exists [EvClose (fd pc)]. auto.
  - destruct (get_page_size_cases P w) as [[_ E]|[_ E]]; rewrite E; clear E;
      simpl.
    + destruct (fd pc =? -1); simpl; eexists;
        (split; [rewrite <- ?app_assoc; reflexivity|]); simpl; auto.
    + destruct (0 <? k_sysconf P (trace w) _SC_PAGESIZE);
        destruct (fd pc =? -1); simpl; eexists;
        (split; [rewrite <- ?app_assoc; reflexivity|]); simpl; auto.
Qed.

Lemma perf_counter_open_by_name_failed (P : Platform) name g w :
  current_state w = STATE_FAILED ->
  perf_counter_open_by_name P name g w = Some (closed_handle, w).
Proof.
  intros H. unfold perf_counter_open_by_name.
  pose proof (ensure_libpfm_initialized_cases P w) as C. rewrite H in C.
  rewrite C. reflexivity.
Qed.

(** Once [current_state] is [STATE_FAILED], no public function changes it
    or calls [pfm_initialize]. *)
Lemma do_call_failed (P : Platform) c w :
  current_state w = STATE_FAILED ->
  exists w' d,
    do_call P c w = Some w' /\ trace w' = trace w ++ d /\
    filter is_pfm_initialize d = [] /\ current_state w' = STATE_FAILED.
Proof.
  intros H. destruct c as [attr g|ty cfg g|name g|pc|pc|pc]; simpl.
  - destruct (perf_counter_open_trace P attr g w) as (d & Ht & _ & Hi & Hs).
    eexists; eexists. split; [reflexivity|]. split; [exact Ht|].
    simpl. split; [exact Hi|congruence].
  - unfold perf_counter_open_by_id.
    match goal with
    | |- context [perf_counter_open P ?a g w] =>
        destruct (perf_counter_open_trace P a g w) as (d & Ht & _ & Hi & Hs)
    end.
    eexists; eexists. split; [reflexivity|]. split; [exact Ht|].
    simpl. split; [exact Hi|congruence].
  - rewrite (perf_counter_open_by_name_failed P name g w H).
    exists w, []. rewrite app_nil_r. auto.
  - destruct (perf_counter_close_trace P pc w) as (d & Ht & _ & Hi & Hs).
    exists (snd (perf_counter_close P pc w)), d. repeat split; auto; congruence.
  - eexists; eexists. split; [reflexivity|]. simpl. auto.
  - eexists; eexists. split; [reflexivity|]. simpl. auto.
Qed.

Lemma do_calls_failed (P : Platform) cs : forall w,
  current_state w = STATE_FAILED ->
  exists w' d,
    do_calls P cs w = Some w' /\ trace w' = trace w ++ d /\
    filter is_pfm_initialize d = [] /\ current_state w' = STATE_FAILED.
Proof.
  induction cs as [|c cs IH]; intros w H; simpl.
  - exists w, []. rewrite app_nil_r. auto.
  - destruct (do_call_failed P c w H) as (w1 & d1 & E1 & T1 & I1 & S1).
    rewrite E1. destruct (IH w1 S1) as (w2 & d2 & E2 & T2 & I2 & S2).
    exists w2, (d1 ++ d2). split; [exact E2|].
    split; [rewrite T2, T1, app_assoc; reflexivity|].
    split; [rewrite filter_app, I1, I2; reflexivity|exact S2].
Qed.

(** C6. When the guard reports that initialisation has not succeeded, or
    when the translation answers anything but [PFM_SUCCESS],
    [perf_counter_open_by_name] returns the closed pair and has not called
    the gateway.  A guard that answers [false] leaves [STATE_FAILED]; from
    then on, after any further calls of the public functions, the state is
    still [STATE_FAILED], [pfm_initialize] has not been called again, and a
    call by name returns the closed pair without making any call at all. *)
Theorem open_by_name_fails_before_gateway (P : Platform) name g w :
  (forall w1,
     ensure_libpfm_initialized P w = Some (false, w1) ->
     perf_counter_open_by_name P name g w = Some (closed_handle, w1) /\
     gateway_calls (since w w1) = [] /\
     current_state w1 = STATE_FAILED) /\
  (forall w1 ret a,
     ensure_libpfm_initialized P w = Some (true, w1) ->
     k_pfm_get_os_event_encoding P (trace w1) name PFM_PLM3
       PFM_OS_PERF_EVENT_EXT
       (attr_set_size attr_zero (sizeof_perf_event_attr P)) = (ret, a) ->
     ret <> PFM_SUCCESS ->
     exists w2,
       perf_counter_open_by_name P name g w = Some (closed_handle, w2) /\
       gateway_calls (since w w2) = []) /\
  (current_state w = STATE_FAILED ->
     forall cs name' g',
     exists w',
       do_calls P cs w = Some w' /\
       current_state w' = STATE_FAILED /\
       filter is_pfm_initialize (since w w') = [] /\
       perf_counter_open_by_name P name' g' w' = Some (closed_handle, w')).
Proof.
  split; [|split].
  - intros w1 E.
    destruct (ensure_libpfm_initialized_result P w false w1 E)
      as (d & Ht & Hg & Hs & _).
    unfold perf_counter_open_by_name. rewrite E. simpl.
    repeat split; auto. rewrite (since_app _ _ _ Ht). exact Hg.
  - intros w1 ret a E Henc Hret.
    destruct (ensure_libpfm_initialized_result P w true w1 E)
      as (d & Ht & Hg & _).
    unfold perf_counter_open_by_name, pfm_get_os_event_encoding.
    rewrite E. simpl. rewrite Henc.
    destruct (Z.eqb_spec ret PFM_SUCCESS) as [|_]; [contradiction|]. simpl.
    eexists. split; [reflexivity|].
    erewrite since_app; [|simpl; rewrite Ht, <- app_assoc; reflexivity].
    unfold gateway_calls in *. rewrite filter_app, Hg. reflexivity.
  - intros H cs name' g'.
    destruct (do_calls_failed P cs w H) as (w' & d & E & Ht & Hi & Hs).
    exists w'. repeat split; auto.
    + rewrite (since_app _ _ _ Ht). exact Hi.
    + apply perf_counter_open_by_name_failed, Hs.
Qed.

Lemma open_by_name_fails_before_gateway_witness :
  let P := const_platform 3 4096 4096 0 (-1) 0 attr_zero in
  let w1 := mk_world [EvPfmInitialize] STATE_FAILED in
  perf_counter_open_by_name P "cycles" (-1) initial_world =
    Some (closed_handle, w1) /\
  exists w',
    do_calls P [CallOpenById 0 1 (-1); CallOpenByName "cycles" (-1)] w1 =
      Some w' /\
    filter is_pfm_initialize (since w1 w') = [].
Proof.
  intros P w1.
  destruct (open_by_name_fails_before_gateway P "cycles" (-1) initial_world)
    as (H1 & _ & _).
  destruct (H1 w1 eq_refl) as (E & _ & _).
  destruct (open_by_name_fails_before_gateway P "cycles" (-1) w1)
    as (_ & _ & H3).
  destruct (H3 eq_refl [CallOpenById 0 1 (-1); CallOpenByName "cycles" (-1)]
              "cycles"%string (-1)) as (w' & E' & _ & I' & _).
  split; [exact E|]. exists w'. split; assumption.
Defined.

(** C7, as the code has it.  When the translation succeeds and leaves [a]
    in the descriptor, the descriptor [perf_counter_open_by_name] hands on
    has [disabled] set; it has [pinned] set when the group descriptor is
    [-1], and otherwise keeps the [pinned] bit the translation left; every
    other bit, [exclude_kernel] and [exclude_hv] among them, and every other
    member are as the translation left them. *)
Theorem open_by_name_attribute_policy (P : Platform) name g w w1 a :
  ensure_libpfm_initialized P w = Some (true, w1) ->
  k_pfm_get_os_event_encoding P (trace w1) name PFM_PLM3 PFM_OS_PERF_EVENT_EXT
    (attr_set_size attr_zero (sizeof_perf_event_attr P)) = (PFM_SUCCESS, a) ->
  exists a' h w',
    perf_counter_open_by_name P name g w = Some (h, w') /\
    gateway_calls (since w w') = [EvPerfEventOpen a' 0 (-1) g 0] /\
    attr_bit a' BIT_disabled = true /\
    (g = -1 -> attr_bit a' BIT_pinned = true) /\
    (g <> -1 -> attr_bit a' BIT_pinned = attr_bit a BIT_pinned) /\
    (forall i, i <> BIT_disabled -> i <> BIT_pinned ->
       attr_bit a' i = attr_bit a i) /\
    same_outside_flags a a'.
Proof.
  intros E Henc.
  destruct (ensure_libpfm_initialized_result P w true w1 E)
    as (d & Ht & Hg & _).
  unfold perf_counter_open_by_name, pfm_get_os_event_encoding.
  rewrite E. cbv beta iota zeta. rewrite Henc.
  change (negb true) with false. change (PFM_SUCCESS =? PFM_SUCCESS) with true.
  cbv beta iota.
  set (a' := attr_set_bit (if g =? -1 then attr_set_bit a BIT_pinned else a)
               BIT_disabled).
  set (w2 := emit _ w1).
  destruct (perf_counter_open_trace P a' g w2) as (d2 & Ht2 & Hg2 & _).
  exists a', (fst (perf_counter_open P a' g w2)),
    (snd (perf_counter_open P a' g w2)).
  split; [rewrite <- surjective_pairing; reflexivity|].
  split.
  { erewrite since_app;
      [|rewrite Ht2; subst w2; simpl; rewrite Ht, <- !app_assoc; reflexivity].
    unfold gateway_calls in *. rewrite filter_app, Hg. simpl. rewrite Hg2.
    reflexivity. }
  subst a'. unfold BIT_disabled, BIT_pinned.
  split; [apply attr_bit_set_same; lia|].
  split; [intros ->; change (-1 =? -1) with true; cbv iota;
          rewrite attr_bit_set_other by lia; apply attr_bit_set_same; lia|].
  split; [intros Hne; destruct (Z.eqb_spec g (-1)); [contradiction|];
          apply attr_bit_set_other; lia|].
  split.
  - intros i H0 H2. rewrite attr_bit_set_other by (try lia; congruence).
    destruct (g =? -1); [|reflexivity].
    apply attr_bit_set_other; [lia|congruence].
  - destruct (g =? -1); reflexivity.
Qed.

Lemma open_by_name_attribute_policy_witness :
  let P := const_platform 3 4096 4096 0 0 0 (attr_set_bit attr_zero BIT_pinned) in
  exists a' h w',
    perf_counter_open_by_name P "cycles" 7 initial_world = Some (h, w') /\
    gateway_calls (since initial_world w') = [EvPerfEventOpen a' 0 (-1) 7 0] /\
    attr_bit a' BIT_disabled = true /\
    attr_bit a' BIT_exclude_kernel = false.
Proof.
  intros P.
  destruct (open_by_name_attribute_policy P "cycles" 7 initial_world
              (mk_world [EvPfmInitialize] STATE_SUCCESS)
              (attr_set_bit attr_zero BIT_pinned) eq_refl eq_refl)
    as (a' & h & w' & E & Hg & Hd & _ & _ & Ho & _).
  exists a', h, w'. repeat split; try assumption.
  rewrite Ho; [reflexivity| |]; discriminate.
Defined.

(** C7, as stated, fails: a translation that leaves [pinned] set (the
    extended perf_event layer of libpfm has a [pinned] modifier for event
    strings) and a group descriptor [7] give the gateway a descriptor with
    [pinned] set although the group descriptor is not [-1]. *)
Lemma open_by_name_pinned_inside_group :
  let P := const_platform 3 4096 4096 0 0 0 (attr_set_bit attr_zero BIT_pinned) in
  exists a' h w',
    perf_counter_open_by_name P "cycles:pinned" 7 initial_world = Some (h, w') /\
    gateway_calls (since initial_world w') = [EvPerfEventOpen a' 0 (-1) 7 0] /\
    ~ (attr_bit a' BIT_pinned = true <-> 7 = -1).
Proof.
  intros P. eexists; eexists; eexists.
  split; [vm_compute; reflexivity|].
  split; [vm_compute; reflexivity|].
  intros [H _]. specialize (H eq_refl). discriminate.
Qed.

(** ** The initialisation guard under interleaving *)

Import OnceInit.

Lemma upd_same f t p : upd f t p t = p.
Proof. unfold upd. rewrite Nat.eqb_refl. reflexivity. Qed.

Lemma upd_other f t p t' : t' <> t -> upd f t p t' = f t'.
Proof.
  intros H. unfold upd. destruct (Nat.eqb_spec t' t); [contradiction|reflexivity].
Qed.

Lemma run_app s1 : forall s2 s, run (s1 ++ s2) s = run s2 (run s1 s).
Proof.
  induction s1 as [|[t r] s1 IH]; intros s2 s; simpl; [reflexivity|apply IH].
Qed.

Lemma Inv_init : Inv init.
Proof. unfold Inv; simpl. repeat split; auto. Qed.

(** Two races in one: two threads enter before either reaches the exchange,
    a third enters while the winner is inside [pfm_initialize]. *)
Example race_of_three :
  let t0 := 0%nat in let t1 := 1%nat in let t2 := 2%nat in
  let s := run [(t0, 0); (t1, 0); (t1, 0); (t0, 0); (t2, 0); (t1, 7); (t2, 0);
                (t0, 0); (t2, 0); (t1, 0); (t0, 0); (t0, 0); (t2, 0); (t2, 0)]
             init in
  shared s = STATE_FAILED /\ cas_winners s = [1%nat] /\
  init_calls s = [(1%nat, 7)] /\
  returned s = [(1, false); (0, false); (2, false)]%nat.
Proof. repeat split. Qed.

(** Case analysis on whether a thread is the one just updated. *)
Ltac case_upd :=
  intros; unfold upd;
  match goal with
  | |- context [Nat.eqb ?a ?b] => destruct (Nat.eqb_spec a b); subst; auto
  end.

Lemma result_of_terminal r : terminal (result_of r) = true.
Proof. unfold result_of. destruct (r =? PFM_SUCCESS); reflexivity. Qed.

(** The invariant is kept by every step of every thread. *)
Lemma Inv_step t r s : Inv s -> Inv (step t r s).
Proof.
  intros H. unfold step, Inv in *.
  destruct (shared s) eqn:Es.
  - (* nobody has won the exchange yet *)
    destruct H as (Hw & Hi & Hp & Hr & Ht).
    destruct (threads s t) eqn:Et;
      try (destruct (Ht t) as [X|X]; congruence); simpl.
    + rewrite ?Es. repeat split; auto.
      case_upd.
    + exists t. rewrite Hw. repeat split; auto.
      * intros t' Hne. rewrite upd_other by assumption.
        destruct (Ht t'); auto.
      * left. rewrite upd_same. auto.
  - (* the winner is initialising *)
    destruct H as (w & Hw & Hp & Hr & Ho & Hwin).
    assert (Hnw : initializing (threads s t) = false -> t <> w).
    { intros Hf ->. destruct Hwin as [[X _]|(r0 & X & _)];
        rewrite X in Hf; discriminate. }
    assert (Hisw : initializing (threads s t) = true -> t = w).
    { intros Hf. destruct (Nat.eq_dec t w) as [|Hne]; [assumption|].
      destruct (Ho t Hne) as [X|[X|X]]; rewrite X in Hf; discriminate. }
    destruct (threads s t) eqn:Et; simpl.
    + rewrite ?Es. exists w. specialize (Hnw eq_refl).
      repeat split; auto.
      * case_upd.
      * rewrite upd_other by auto. exact Hwin.
    + rewrite ?Es. exists w. specialize (Hnw eq_refl).
      repeat split; auto.
      * case_upd.
      * rewrite upd_other by auto. exact Hwin.
    + rewrite ?Es. specialize (Hisw eq_refl). subst t. exists w.
      repeat split; auto.
      * intros t' Hne. rewrite upd_other by assumption. auto.
      * right. exists r. rewrite upd_same.
        destruct Hwin as [[_ X]|(r0 & X & _)]; [|congruence].
        rewrite X. auto.
    + specialize (Hisw eq_refl). subst t.
      destruct Hwin as [[X _]|(r0 & X & Hi)]; [congruence|].
      rewrite Et in X. inversion X; subst result_state; clear X.
      assert (G : exists w0 r1,
        cas_winners s = [w0] /\ init_calls s = [(w0, r1)] /\
        published s ++ [(w, result_of r0)] = [(w0, result_of r0)] /\
        result_of r0 = result_of r1 /\
        (forall t0, initializing (upd (threads s) w Idle t0) = false) /\
        (forall t0 b,
           In (t0, b)
             (returned s ++ [(w, init_state_eqb (result_of r0) STATE_SUCCESS)]) ->
           b = init_state_eqb (result_of r0) STATE_SUCCESS)).
      { exists w, r0. rewrite Hp, Hr. repeat split; auto.
        - intros t'. unfold upd. destruct (Nat.eqb_spec t' w); [reflexivity|].
          destruct (Ho t' n) as [Y|[Y|Y]]; rewrite Y; reflexivity.
        - intros t0 b [Y|[]]. congruence. }
      pose proof (result_of_terminal r0) as Hterm.
      destruct (result_of r0); try discriminate; exact G.
    + rewrite ?Es. exists w. repeat split; auto.
    + exfalso. destruct (Nat.eq_dec t w) as [->|Hne].
      * destruct Hwin as [[X _]|(r0 & X & _)]; congruence.
      * destruct (Ho t Hne) as [X|[X|X]]; congruence.
  - (* initialisation has succeeded *)
    destruct H as (w & r0 & Hw & Hi & Hp & HT & Hn & Hret).
    pose proof (Hn t) as Hnt.
    destruct (threads s t) eqn:Et; try discriminate; simpl; rewrite ?Es;
      exists w, r0; repeat split; auto;
      try case_upd;
      intros t0 b Hin; apply in_app_or in Hin;
      destruct Hin as [Hin|[Hin|[]]]; eauto; congruence.
  - (* initialisation has failed *)
    destruct H as (w & r0 & Hw & Hi & Hp & HT & Hn & Hret).
    pose proof (Hn t) as Hnt.
    destruct (threads s t) eqn:Et; try discriminate; simpl; rewrite ?Es;
      exists w, r0; repeat split; auto;
      try case_upd;
      intros t0 b Hin; apply in_app_or in Hin;
      destruct Hin as [Hin|[Hin|[]]]; eauto; congruence.
Qed.

Lemma Inv_run sched : forall s, Inv s -> Inv (run sched s).
Proof.
  induction sched as [|[t r] sched IH]; intros s H; simpl; [exact H|].
  apply IH, Inv_step, H.
Qed.

(** Once a result is stored, no step changes the shared variable or records
    a new winner, call of [pfm_initialize] or store. *)
Lemma terminal_step t r s :
  Inv s -> terminal (shared s) = true ->
  shared (step t r s) = shared s /\
  cas_winners (step t r s) = cas_winners s /\
  init_calls (step t r s) = init_calls s /\
  published (step t r s) = published s.
Proof.
  intros H Ht. unfold Inv in H. unfold step.
  destruct (shared s) eqn:Es; try discriminate;
    destruct H as (w & r0 & _ & _ & _ & _ & Hn & _);
    specialize (Hn t);
    destruct (threads s t); try discriminate; simpl; rewrite ?Es; auto.
Qed.

Lemma terminal_run sched : forall s,
  Inv s -> terminal (shared s) = true ->
  shared (run sched s) = shared s /\
  cas_winners (run sched s) = cas_winners s /\
  init_calls (run sched s) = init_calls s /\
  published (run sched s) = published s.
Proof.
  induction sched as [|[t r] sched IH]; intros s H Ht; simpl; [auto|].
  destruct (terminal_step t r s H Ht) as (E1 & E2 & E3 & E4).
  destruct (IH (step t r s) (Inv_step t r s H)) as (F1 & F2 & F3 & F4).
  - rewrite E1. exact Ht.
  - repeat split; congruence.
Qed.

(** What one step does, seen from the thread that takes it. *)
Lemma step_enter t r s :
  threads s t = Idle -> terminal (shared s) = false ->
  shared (step t r s) = shared s /\ threads (step t r s) t = AtCas /\
  returned (step t r s) = returned s.
Proof.
  intros Ht Hs. unfold step. rewrite Ht.
  destruct (shared s); try discriminate; simpl; rewrite upd_same; auto.
Qed.

Lemma step_exchange_won t r s :
  threads s t = AtCas -> shared s = STATE_UNINITIALIZED ->
  shared (step t r s) = STATE_IN_PROGRESS /\
  threads (step t r s) t = AtInit /\ returned (step t r s) = returned s.
Proof.
  intros Ht Hs. unfold step. rewrite Ht, Hs. simpl. rewrite upd_same. auto.
Qed.

Lemma step_initialize t r s :
  threads s t = AtInit ->
  shared (step t r s) = shared s /\
  threads (step t r s) t = AtStore (result_of r) /\
  returned (step t r s) = returned s.
Proof.
  intros Ht. unfold step. rewrite Ht. simpl. rewrite upd_same. auto.
Qed.

Lemma step_store t r s rs :
  threads s t = AtStore rs ->
  shared (step t r s) = rs /\ threads (step t r s) t = Idle /\
  returned (step t r s) =
    returned s ++ [(t, init_state_eqb rs STATE_SUCCESS)].
Proof.
  intros Ht. unfold step. rewrite Ht. simpl. rewrite upd_same. auto.
Qed.

Lemma step_exchange_lost t r s :
  threads s t = AtCas -> shared s <> STATE_UNINITIALIZED ->
  shared (step t r s) = shared s /\ threads (step t r s) t = Spin /\
  returned (step t r s) = returned s.
Proof.
  intros Ht Hs. unfold step. rewrite Ht.
  destruct (shared s); try contradiction; simpl; rewrite upd_same; auto.
Qed.

Lemma step_wait_over t r s :
  threads s t = Spin -> shared s <> STATE_IN_PROGRESS ->
  shared (step t r s) = shared s /\ threads (step t r s) t = AtFinal /\
  returned (step t r s) = returned s.
Proof.
  intros Ht Hs. unfold step. rewrite Ht.
  destruct (shared s); try contradiction; simpl; rewrite upd_same; auto.
Qed.

Lemma step_last_load t r s :
  threads s t = AtFinal ->
  shared (step t r s) = shared s /\ threads (step t r s) t = Idle /\
  returned (step t r s) =
    returned s ++ [(t, init_state_eqb (shared s) STATE_SUCCESS)].
Proof.
  intros Ht. unfold step. rewrite Ht. simpl. rewrite upd_same. auto.
Qed.

(** A step of one thread leaves the other threads where they are. *)
Lemma step_other u r s t : t <> u -> threads (step u r s) t = threads s t.
Proof.
  intros Hne. unfold step.
  destruct (threads s u); destruct (shared s); simpl;
    rewrite ?upd_other by assumption; reflexivity.
Qed.

Lemma run_repeat_other u r n : forall s t,
  t <> u -> threads (run (repeat (u, r) n) s) t = threads s t.
Proof.
  induction n as [|n IH]; intros s t Hne; cbn [repeat run]; [reflexivity|].
  rewrite IH by assumption. apply step_other, Hne.
Qed.

(** With a result stored, a thread inside the function returns that result
    after at most three steps of its own. *)
Lemma returns_once_published t r s :
  terminal (shared s) = true ->
  threads s t = AtCas \/ threads s t = Spin \/ threads s t = AtFinal ->
  exists n,
    (n <= 3)%nat /\
    threads (run (repeat (t, r) n) s) t = Idle /\
    returned (run (repeat (t, r) n) s) =
      returned s ++ [(t, init_state_eqb (shared s) STATE_SUCCESS)].
Proof.
  intros Hterm Hpc.
  assert (Hu : shared s <> STATE_UNINITIALIZED)
    by (intros E; rewrite E in Hterm; discriminate).
  assert (Hp : shared s <> STATE_IN_PROGRESS)
    by (intros E; rewrite E in Hterm; discriminate).
  destruct Hpc as [Et|[Et|Et]].
  - exists 3%nat. split; [lia|]. cbn [repeat run].
    destruct (step_exchange_lost t r s Et Hu) as (A1 & A2 & A3).
    destruct (step_wait_over t r _ A2) as (B1 & B2 & B3); [congruence|].
    destruct (step_last_load t r _ B2) as (_ & C2 & C3).
    split; [exact C2|]. rewrite C3, B3, A3, B1, A1. reflexivity.
  - exists 2%nat. split; [lia|]. cbn [repeat run].
    destruct (step_wait_over t r s Et Hp) as (B1 & B2 & B3).
    destruct (step_last_load t r _ B2) as (_ & C2 & C3).
    split; [exact C2|]. rewrite C3, B3, B1. reflexivity.
  - exists 1%nat. split; [lia|]. cbn [repeat run].
    destruct (step_last_load t r s Et) as (_ & C2 & C3).
    split; [exact C2|exact C3].
Qed.

(** While the state is [STATE_IN_PROGRESS], one or two steps of the winner
    store a result and return it to the winner. *)
Lemma winner_finishes r s :
  Inv s -> shared s = STATE_IN_PROGRESS ->
  exists w k,
    cas_winners s = [w] /\ (k <= 2)%nat /\
    terminal (shared (run (repeat (w, r) k) s)) = true /\
    threads (run (repeat (w, r) k) s) w = Idle /\
    exists b, returned (run (repeat (w, r) k) s) = returned s ++ [(w, b)].
Proof.
  intros H Es. unfold Inv in H. rewrite Es in H.
  destruct H as (w & Hw & _ & _ & _ & Hwin). exists w.
  destruct Hwin as [[X _]|(r0 & X & _)].
  - exists 2%nat. split; [exact Hw|]. split; [lia|]. cbn [repeat run].
    destruct (step_initialize w r s X) as (_ & B2 & B3).
    destruct (step_store w r _ _ B2) as (C1 & C2 & C3).
    rewrite C1. split; [apply result_of_terminal|]. split; [exact C2|].
    eexists. rewrite C3, B3. reflexivity.
  - exists 1%nat. split; [exact Hw|]. split; [lia|]. cbn [repeat run].
    destruct (step_store w r s _ X) as (C1 & C2 & C3).
    rewrite C1. split; [apply result_of_terminal|]. split; [exact C2|].
    eexists. exact C3.
Qed.

(** A thread inside the function gets out of it with a value: at most five
    steps, each of the winner or of the thread itself, whatever
    [pfm_initialize] returns. *)
Lemma call_completes t r s :
  Inv s -> threads s t <> Idle ->
  exists ts,
    (List.length ts <= 5)%nat /\
    Forall (fun u => u = t \/ In u (cas_winners s)) ts /\
    threads (run (map (fun u => (u, r)) ts) s) t = Idle /\
    exists l b,
      returned (run (map (fun u => (u, r)) ts) s) =
        returned s ++ l ++ [(t, b)].
Proof.
  intros H Hin.
  assert (Frep : forall n, Forall (fun u => u = t \/ In u (cas_winners s))
                             (repeat t n)).
  { intros n. apply Forall_forall. intros u Hu.
    apply repeat_spec in Hu. auto. }
  destruct (shared s) eqn:Es.
  - (* nobody has won: the thread wins and initialises by itself *)
    pose proof H as H'. unfold Inv in H'. rewrite Es in H'.
    destruct H' as (_ & _ & _ & _ & Ht).
    destruct (Ht t) as [Et|Et]; [contradiction|].
    exists (repeat t 3). split; [cbn; lia|]. split; [apply Frep|].
    cbn [repeat map run].
    destruct (step_exchange_won t r s Et Es) as (_ & A2 & A3).
    destruct (step_initialize t r _ A2) as (_ & B2 & B3).
    destruct (step_store t r _ _ B2) as (_ & C2 & C3).
    split; [exact C2|]. exists [].
    eexists. rewrite C3, B3, A3. reflexivity.
  - (* the winner publishes, then the thread, if another, leaves *)
    destruct (winner_finishes r s H Es) as (w & k & Hw & Hk & Ht & Hi & b & Hr).
    assert (Fw : Forall (fun u => u = t \/ In u (cas_winners s)) (repeat w k)).
    { apply Forall_forall. intros u Hu. apply repeat_spec in Hu.
      right. rewrite Hw. left. auto. }
    destruct (Nat.eq_dec t w) as [->|Hne].
    + exists (repeat w k). split; [rewrite repeat_length; lia|].
      split; [exact Fw|]. rewrite map_repeat.
      split; [exact Hi|]. exists [], b. exact Hr.
    + set (s1 := run (repeat (w, r) k) s) in *.
      assert (Et1 : threads s1 t = threads s t)
        by (apply run_repeat_other; assumption).
      assert (Hpc : threads s1 t = AtCas \/ threads s1 t = Spin \/
                    threads s1 t = AtFinal).
      { rewrite Et1. pose proof H as H'. unfold Inv in H'. rewrite Es in H'.
        destruct H' as (w' & Hw' & _ & _ & Ho & _).
        assert (w' = w) by congruence. subst w'.
        destruct (Ho t Hne) as [X|[X|X]]; auto. contradiction. }
      destruct (returns_once_published t r s1 Ht Hpc) as (n & Hn & Hidle & Hret).
      exists (repeat w k ++ repeat t n).
      split; [rewrite length_app, !repeat_length; lia|].
      split; [apply Forall_app; split; [exact Fw|apply Frep]|].
      rewrite map_app, !map_repeat, run_app. fold s1.
      split; [exact Hidle|].
      exists [(w, b)]. eexists. rewrite Hret, Hr, <- app_assoc. reflexivity.
  - assert (Hpc : threads s t = AtCas \/ threads s t = Spin \/
                  threads s t = AtFinal).
    { pose proof H as H'. unfold Inv in H'. rewrite Es in H'.
      destruct H' as (w & r0 & _ & _ & _ & _ & Hn & _). specialize (Hn t).
      destruct (threads s t); try discriminate; auto. contradiction. }
    destruct (returns_once_published t r s) as (n & Hn & Hidle & Hret);
      [rewrite Es; reflexivity|exact Hpc|].
    exists (repeat t n). split; [rewrite repeat_length; lia|].
    split; [apply Frep|]. rewrite map_repeat.
    split; [exact Hidle|]. exists []. eexists. exact Hret.
  - assert (Hpc : threads s t = AtCas \/ threads s t = Spin \/
                  threads s t = AtFinal).
    { pose proof H as H'. unfold Inv in H'. rewrite Es in H'.
      destruct H' as (w & r0 & _ & _ & _ & _ & Hn & _). specialize (Hn t).
      destruct (threads s t); try discriminate; auto. contradiction. }
    destruct (returns_once_published t r s) as (n & Hn & Hidle & Hret);
      [rewrite Es; reflexivity|exact Hpc|].
    exists (repeat t n). split; [rewrite repeat_length; lia|].
    split; [apply Frep|]. rewrite map_repeat.
    split; [exact Hidle|]. exists []. eexists. exact Hret.
Qed.

(** What the steps of the winner add to the record. *)
Lemma step_enter_log t r s :
  threads s t = Idle -> terminal (shared s) = false ->
  cas_winners (step t r s) = cas_winners s /\
  init_calls (step t r s) = init_calls s /\
  published (step t r s) = published s.
Proof.
  intros Ht Hs. unfold step. rewrite Ht.
  destruct (shared s); try discriminate; simpl; auto.
Qed.

Lemma step_exchange_won_log t r s :
  threads s t = AtCas -> shared s = STATE_UNINITIALIZED ->
  cas_winners (step t r s) = cas_winners s ++ [t] /\
  init_calls (step t r s) = init_calls s /\
  published (step t r s) = published s.
Proof. intros Ht Hs. unfold step. rewrite Ht, Hs. simpl. auto. Qed.

Lemma step_initialize_log t r s :
  threads s t = AtInit ->
  cas_winners (step t r s) = cas_winners s /\
  init_calls (step t r s) = init_calls s ++ [(t, r)] /\
  published (step t r s) = published s.
Proof. intros Ht. unfold step. rewrite Ht. simpl. auto. Qed.

Lemma step_store_log t r s rs :
  threads s t = AtStore rs ->
  cas_winners (step t r s) = cas_winners s /\
  init_calls (step t r s) = init_calls s /\
  published (step t r s) = published s ++ [(t, rs)].
Proof. intros Ht. unfold step. rewrite Ht. simpl. auto. Qed.

(** The first call, made by a thread running alone: four steps, one call
    of [pfm_initialize], and its outcome stored and returned. *)
Lemma first_call_alone t r :
  let s := run (repeat (t, r) 4) init in
  shared s = result_of r /\ cas_winners s = [t] /\
  init_calls s = [(t, r)] /\ published s = [(t, result_of r)] /\
  returned s = [(t, r =? PFM_SUCCESS)] /\ threads s t = Idle.
Proof.
  cbn [repeat run].
  assert (Et : threads init t = Idle) by reflexivity.
  assert (Es : terminal (shared init) = false) by reflexivity.
  destruct (step_enter t r init Et Es) as (A1 & A2 & A3).
  destruct (step_enter_log t r init Et Es) as (A4 & A5 & A6).
  set (s1 := step t r init) in *.
  destruct (step_exchange_won t r s1 A2 A1) as (B1 & B2 & B3).
  destruct (step_exchange_won_log t r s1 A2 A1) as (B4 & B5 & B6).
  set (s2 := step t r s1) in *.
  destruct (step_initialize t r s2 B2) as (C1 & C2 & C3).
  destruct (step_initialize_log t r s2 B2) as (C4 & C5 & C6).
  set (s3 := step t r s2) in *.
  destruct (step_store t r s3 _ C2) as (D1 & D2 & D3).
  destruct (step_store_log t r s3 _ C2) as (D4 & D5 & D6).
  rewrite D1, D2, D3, D4, D5, D6, C3, C4, C5, C6, B3, B4, B5, B6, A3, A4, A5,
    A6.
  cbn [init cas_winners init_calls published returned app].
  unfold result_of. destruct (r =? PFM_SUCCESS); repeat split; reflexivity.
Qed.

(** A thread outside the function that takes a step either returns at once
    the result already stored, or is inside the function afterwards. *)
Lemma step_from_outside t r s :
  threads s t = Idle ->
  (terminal (shared s) = true /\
   threads (step t r s) t = Idle /\
   returned (step t r s) =
     returned s ++ [(t, init_state_eqb (shared s) STATE_SUCCESS)]) \/
  (terminal (shared s) = false /\ threads (step t r s) t = AtCas /\
   returned (step t r s) = returned s).
Proof.
  intros Ht. unfold step. rewrite Ht.
  destruct (shared s); simpl; rewrite ?upd_same; auto.
Qed.

(** Once some caller has returned, a result is stored, and the exchange
    has been won and [pfm_initialize] called exactly once. *)
Lemma Inv_after_return s :
  Inv s -> returned s <> [] ->
  terminal (shared s) = true /\
  List.length (init_calls s) = 1%nat /\
  List.length (cas_winners s) = 1%nat.
Proof.
  intros H Hr. unfold Inv in H. destruct (shared s).
  - destruct H as (_ & _ & _ & E & _). contradiction.
  - destruct H as (w & _ & _ & E & _). contradiction.
  - destruct H as (w & r0 & Hw & Hi & _). rewrite Hw, Hi. auto.
  - destruct H as (w & r0 & Hw & Hi & _). rewrite Hw, Hi. auto.
Qed.

(** Closes the goals about lists of at most one entry. *)
Ltac finish_facts :=
  repeat split; intros; simpl;
  repeat match goal with
  | X : In _ [] |- _ => destruct X
  | X : In _ [_] |- _ => destruct X as [X|[]]; inversion X; subst; clear X
  end;
  try lia; try discriminate; try reflexivity; try contradiction; eauto.

(** While the winner is at work, two of its steps store a result. *)
Lemma winner_publishes s :
  Inv s -> shared s = STATE_IN_PROGRESS ->
  exists w, cas_winners s = [w] /\
    forall r, terminal (shared (run [(w, r); (w, r)] s)) = true.
Proof.
  intros H Es. unfold Inv in H. rewrite Es in H.
  destruct H as (w & Hw & _ & _ & _ & Hwin). exists w. split; [exact Hw|].
  intros r. simpl. destruct Hwin as [[X _]|(r0 & X & _)].
  - unfold step at 2. rewrite X. unfold step; simpl. rewrite upd_same. simpl.
    destruct (r =? PFM_SUCCESS); reflexivity.
  - unfold step at 2. rewrite X. unfold step; simpl. rewrite upd_same.
    pose proof (result_of_terminal r0) as T.
    destruct (result_of r0); try discriminate; reflexivity.
Qed.

(** C5. In every history of steps of any number of threads through
    [ensure_libpfm_initialized], starting with [current_state] at
    [STATE_UNINITIALIZED]: at most one thread wins the exchange, and exactly
    one once the state has left [STATE_UNINITIALIZED]; [pfm_initialize] is
    called at most once, by the winner, and exactly once by the time a
    result is stored; only the winner stores a result, and what it stores is
    terminal; no caller has returned before a result is stored, and every
    value returned is [true] exactly when the stored result is
    [STATE_SUCCESS], so that all callers return the same value; once stored,
    the result is never changed and [pfm_initialize] is not called again;
    while the state is [STATE_IN_PROGRESS] a thread in the waiting loop
    stays there, and two steps of the winner store a result.

    And calls do happen and do return.  The first call, by a thread running
    alone, calls [pfm_initialize] once and returns its outcome.  A thread
    that enters the function either returns at once the result already
    stored, without a further call of [pfm_initialize], or is inside the
    function.  A thread inside the function returns after at most five
    steps, each of the winner or of the thread itself, whatever
    [pfm_initialize] returns; by then a result is stored, the exchange has
    been won once and [pfm_initialize] has been called exactly once. *)
Theorem pfm_initialize_runs_once (sched : list (nat * Z)) :
  let s := run sched init in
  (List.length (cas_winners s) <= 1)%nat /\
  (List.length (init_calls s) <= 1)%nat /\
  (List.length (published s) <= 1)%nat /\
  (shared s <> STATE_UNINITIALIZED -> List.length (cas_winners s) = 1%nat) /\
  (forall t r, In (t, r) (init_calls s) -> cas_winners s = [t]) /\
  (forall t st, In (t, st) (published s) ->
     cas_winners s = [t] /\ st = shared s /\ terminal st = true) /\
  (terminal (shared s) = true ->
     List.length (init_calls s) = 1%nat /\
     List.length (published s) = 1%nat) /\
  (forall t b, In (t, b) (returned s) ->
     terminal (shared s) = true /\
     b = init_state_eqb (shared s) STATE_SUCCESS) /\
  (forall t b t' b',
     In (t, b) (returned s) -> In (t', b') (returned s) -> b = b') /\
  (terminal (shared s) = true ->
     forall more,
       shared (run more s) = shared s /\
       init_calls (run more s) = init_calls s /\
       published (run more s) = published s) /\
  (shared s = STATE_IN_PROGRESS ->
     forall t r, threads s t = Spin -> step t r s = s) /\
  (shared s = STATE_IN_PROGRESS ->
     exists w, cas_winners s = [w] /\
       forall r, terminal (shared (run [(w, r); (w, r)] s)) = true) /\
  (forall t r,
     let s1 := run (repeat (t, r) 4) init in
     cas_winners s1 = [t] /\ init_calls s1 = [(t, r)] /\
     returned s1 = [(t, r =? PFM_SUCCESS)] /\ shared s1 = result_of r) /\
  (forall t r, threads s t = Idle ->
     (terminal (shared s) = true /\
      returned (step t r s) =
        returned s ++ [(t, init_state_eqb (shared s) STATE_SUCCESS)] /\
      init_calls (step t r s) = init_calls s) \/
     (terminal (shared s) = false /\ threads (step t r s) t <> Idle)) /\
  (forall t r, threads s t <> Idle ->
     exists ts,
       (List.length ts <= 5)%nat /\
       Forall (fun u => u = t \/ In u (cas_winners s)) ts /\
       let s' := run (map (fun u => (u, r)) ts) s in
       threads s' t = Idle /\
       (exists l b, returned s' = returned s ++ l ++ [(t, b)]) /\
       terminal (shared s') = true /\
       List.length (init_calls s') = 1%nat /\
       List.length (cas_winners s') = 1%nat).
Proof.
  intros s.
  assert (H : Inv s) by (apply Inv_run, Inv_init).
  assert (F :
    (List.length (cas_winners s) <= 1)%nat /\
    (List.length (init_calls s) <= 1)%nat /\
    (List.length (published s) <= 1)%nat /\
    (shared s <> STATE_UNINITIALIZED -> List.length (cas_winners s) = 1%nat) /\
    (forall t r, In (t, r) (init_calls s) -> cas_winners s = [t]) /\
    (forall t st, In (t, st) (published s) ->
       cas_winners s = [t] /\ st = shared s /\ terminal st = true) /\
    (terminal (shared s) = true ->
       List.length (init_calls s) = 1%nat /\
       List.length (published s) = 1%nat) /\
    (forall t b, In (t, b) (returned s) ->
       terminal (shared s) = true /\
       b = init_state_eqb (shared s) STATE_SUCCESS)).
  { pose proof H as H'. unfold Inv in H'.
    destruct (shared s) eqn:Es.
    - destruct H' as (Hw & Hi & Hp & Hr & _). rewrite Hw, Hi, Hp, Hr.
      finish_facts.
    - destruct H' as (w & Hw & Hp & Hr & _ & Hwin). rewrite Hw, Hp, Hr.
      destruct Hwin as [[_ Hi]|(r0 & _ & Hi)]; rewrite Hi; finish_facts.
    - destruct H' as (w & r0 & Hw & Hi & Hp & _ & _ & Hret).
      rewrite Hw, Hi, Hp. finish_facts.
    - destruct H' as (w & r0 & Hw & Hi & Hp & _ & _ & Hret).
      rewrite Hw, Hi, Hp. finish_facts. }
  destruct F as (F1 & F2 & F3 & F4 & F5 & F6 & F7 & F8).
  repeat (split; [assumption|]).
  split; [|split; [|split; [|split; [|split; [|split]]]]].
  - intros t b t' b' Hb Hb'.
    destruct (F8 t b Hb) as [_ ->]. destruct (F8 t' b' Hb') as [_ ->].
    reflexivity.
  - intros Ht more. destruct (terminal_run more s H Ht) as (E1 & _ & E3 & E4).
    auto.
  - intros Es t r Ht. unfold step. rewrite Ht, Es. reflexivity.
  - intros Es. apply winner_publishes; assumption.
  - intros t r. destruct (first_call_alone t r) as (A & B & C & _ & E & _).
    cbv zeta. auto.
  - intros t r Ht.
    destruct (step_from_outside t r s Ht) as [(A & _ & C)|(A & B & _)].
    + left. split; [exact A|]. split; [exact C|].
      destruct (terminal_step t r s H A) as (_ & _ & E3 & _). exact E3.
    + right. split; [exact A|]. rewrite B. discriminate.
  - intros t r Hin.
    destruct (call_completes t r s H Hin)
      as (ts & Hl & Hf & Hidle & l & b & Hr).
    exists ts. split; [exact Hl|]. split; [exact Hf|]. cbv zeta.
    split; [exact Hidle|]. split; [exists l, b; exact Hr|].
    apply Inv_after_return; [apply Inv_run, H|].
    rewrite Hr. intros E. apply app_eq_nil in E. destruct E as [_ E].
    apply app_eq_nil in E. destruct E as [_ E]. discriminate.
Qed.

(** The sequential reading of the guard is the machine with one thread
    running alone: whenever [ensure_libpfm_initialized] returns, the thread
    reaches the same return value and leaves the same state behind. *)
Lemma ensure_agrees_with_machine (P : Platform) w b w1 t s :
  ensure_libpfm_initialized P w = Some (b, w1) ->
  shared s = current_state w -> threads s t = Idle ->
  exists n,
    let s' := run (repeat (t, k_pfm_initialize P (trace w)) n) s in
    shared s' = current_state w1 /\ threads s' t = Idle /\
    returned s' = returned s ++ [(t, b)].
Proof.
  intros E Hs Ht. pose proof (ensure_libpfm_initialized_cases P w) as C.
  destruct (current_state w) eqn:Ew; cbv zeta in C; rewrite C in E;
    inversion E; subst; clear E C.
  - exists 4%nat. cbn [repeat run].
    set (r := k_pfm_initialize P (trace w)).
    destruct (step_enter t r s Ht) as (A1 & A2 & A3);
      [rewrite Hs; reflexivity|].
    rewrite Hs in A1.
    destruct (step_exchange_won t r _ A2 A1) as (B1 & B2 & B3).
    destruct (step_initialize t r _ B2) as (C1 & C2 & C3).
    destruct (step_store t r _ _ C2) as (D1 & D2 & D3).
    cbv zeta. rewrite D1, D2, D3, C3, B3, A3. unfold result_of.
    cbn [current_state]. destruct (r =? PFM_SUCCESS); auto.
  - exists 1%nat. cbn [repeat run]. unfold step. rewrite Ht, Hs.
    cbn [shared threads returned]. auto.
  - exists 1%nat. cbn [repeat run]. unfold step. rewrite Ht, Hs.
    cbn [shared threads returned]. auto.
Qed.

(** And where the sequential reading does not return, the thread alone
    never leaves the waiting loop. *)
Lemma ensure_spins_in_machine (P : Platform) w t r s :
  ensure_libpfm_initialized P w = None ->
  shared s = current_state w -> threads s t = Idle ->
  forall n, returned (run (repeat (t, r) n) s) = returned s.
Proof.
  intros E Hs Ht n. pose proof (ensure_libpfm_initialized_cases P w) as C.
  destruct (current_state w) eqn:Ew; simpl in C; rewrite C in E;
    try discriminate. clear E C.
  assert (G : forall n s0, shared s0 = STATE_IN_PROGRESS ->
            threads s0 t = Idle \/ threads s0 t = AtCas \/ threads s0 t = Spin ->
            returned (run (repeat (t, r) n) s0) = returned s0).
  { clear. induction n as [|n IH]; intros s0 Hs Ht; simpl; [reflexivity|].
    assert (K : shared (step t r s0) = STATE_IN_PROGRESS /\
                returned (step t r s0) = returned s0 /\
                (threads (step t r s0) t = AtCas \/
                 threads (step t r s0) t = Spin)).
    { unfold step. destruct Ht as [X|[X|X]]; rewrite X, Hs; simpl;
        rewrite ?upd_same; auto. }
    destruct K as (K1 & K2 & K3). rewrite IH; [exact K2|exact K1|tauto]. }
  apply G; auto.
Qed.

(** * Further properties of the sequential functions *)

(** ** [perf_counter_open], path by path *)

(** The five ways through [perf_counter_open], with everything it calls. *)
Lemma perf_counter_open_paths (P : Platform) attr g w :
  let E := EvPerfEventOpen attr 0 (-1) g 0 in
  let S := EvSysconf _SC_PAGESIZE in
  let fd0 := to_int32 (k_perf_event_open P (trace w) attr 0 (-1) g 0) in
  let ps := k_sysconf P (trace w ++ [E]) _SC_PAGESIZE in
  let M := EvMmap NULL (to_size_t ps) PROT_READ MAP_SHARED fd0 0 in
  let m := k_mmap P (trace w ++ [E; S]) NULL (to_size_t ps) PROT_READ
             MAP_SHARED fd0 0 in
  perf_counter_open P attr g w =
    if fd0 <? 0 then
      (closed_handle, mk_world (trace w ++ [E]) (current_state w))
    else if ps <? 1 then
      (closed_handle,
       mk_world (trace w ++ [E; S; EvPerror "sysconf(_SC_PAGESIZE)";
                             EvClose fd0]) (current_state w))
    else if m =? MAP_FAILED then
      (closed_handle,
       mk_world (trace w ++ [E; S; M; EvPerror "mmap"; EvClose fd0])
         (current_state w))
    else if m =? NULL then
      (closed_handle,
       mk_world (trace w ++ [E; S; M; EvClose fd0]) (current_state w))
    else (mk_pc fd0 m, mk_world (trace w ++ [E; S; M]) (current_state w)).
Proof.
  intros E S fd0 ps M m.
  unfold perf_counter_open, sys_perf_event_open. fold fd0. fold E.
  destruct (fd0 <? 0); [reflexivity|].
  unfold mmap_perf_metadata_page.
  destruct (get_page_size_cases P (emit E w)) as [[Hps Eq]|[Hps Eq]];
    rewrite Eq; clear Eq; cbn [trace emit] in Hps; fold ps in Hps.
  - destruct (Z.ltb_spec ps 1); [|lia]. cbn.
    unfold emit; cbn. rewrite <- !app_assoc. reflexivity.
  - destruct (Z.ltb_spec ps 1); [lia|].
    cbn [trace emit]. fold ps. fold S.
    destruct (Z.ltb_spec ps 0); [lia|].
    replace ((trace w ++ [E]) ++ [S]) with (trace w ++ [E; S])
      by (rewrite <- app_assoc; reflexivity).
    fold m. fold M.
    destruct (m =? MAP_FAILED).
    + cbn. unfold emit; cbn. rewrite <- !app_assoc. reflexivity.
    + destruct (m =? NULL); cbn; unfold emit; cbn;
        rewrite <- !app_assoc; reflexivity.
Qed.

(** X1. [get_page_size] answers [sysconf]'s value when that is at least
    one, and [-1] (after a [perror]) otherwise; it never answers zero, so
    the test [page_size < 0] of the mapping helper and the test
    [page_size > 0] of the teardown split its answers the same way. *)
Theorem get_page_size_result (P : Platform) w :
  let r := fst (get_page_size P w) in
  let w' := snd (get_page_size P w) in
  let ps := k_sysconf P (trace w) _SC_PAGESIZE in
  ((ps < 1 /\ r = -1 /\
    since w w' = [EvSysconf _SC_PAGESIZE; EvPerror "sysconf(_SC_PAGESIZE)"]) \/
   (1 <= ps /\ r = ps /\ since w w' = [EvSysconf _SC_PAGESIZE])) /\
  ((r <? 0) = negb (0 <? r)) /\
  current_state w' = current_state w.
Proof.
  intros r w' ps. subst r w'.
  destruct (get_page_size_cases P w) as [[Hps E]|[Hps E]]; rewrite E;
    fold ps in Hps; cbn [fst snd].
  - split; [left; repeat split; auto|split; reflexivity].
    apply since_app. cbn. rewrite <- app_assoc. reflexivity.
  - split; [right; repeat split; auto|split; [|reflexivity]].
    + apply since_app. reflexivity.
    + fold ps. destruct (Z.ltb_spec ps 0); destruct (Z.ltb_spec 0 ps);
        try reflexivity; lia.
Qed.

(** X2. When the gateway answers a descriptor [fd0 >= 0], the page size
    [ps] is known and [mmap] answers an address [m] other than [MAP_FAILED]
    and [NULL], [perf_counter_open] returns the handle [(fd0, m)] after
    exactly three calls: the gateway, [sysconf], and one [mmap] of [ps]
    bytes (as [size_t]), read-only and shared, of [fd0] at offset zero.  It
    closes nothing. *)
Theorem open_success_path (P : Platform) attr g w :
  let E := EvPerfEventOpen attr 0 (-1) g 0 in
  let fd0 := to_int32 (k_perf_event_open P (trace w) attr 0 (-1) g 0) in
  let ps := k_sysconf P (trace w ++ [E]) _SC_PAGESIZE in
  let m := k_mmap P (trace w ++ [E; EvSysconf _SC_PAGESIZE]) NULL
             (to_size_t ps) PROT_READ MAP_SHARED fd0 0 in
  0 <= fd0 -> 1 <= ps -> m <> MAP_FAILED -> m <> NULL ->
  fst (perf_counter_open P attr g w) = mk_pc fd0 m /\
  since w (snd (perf_counter_open P attr g w)) =
    [E; EvSysconf _SC_PAGESIZE;
     EvMmap NULL (to_size_t ps) PROT_READ MAP_SHARED fd0 0] /\
  (ps < 2 ^ 64 -> to_size_t ps = ps).
Proof.
  intros E fd0 ps m Hfd Hps Hm1 Hm2.
  pose proof (perf_counter_open_paths P attr g w) as Hp. cbv zeta in Hp.
  fold E fd0 ps m in Hp. rewrite Hp.
  destruct (Z.ltb_spec fd0 0); [lia|]. destruct (Z.ltb_spec ps 1); [lia|].
  destruct (Z.eqb_spec m MAP_FAILED); [contradiction|].
  destruct (Z.eqb_spec m NULL); [contradiction|].
  cbn [fst snd]. split; [reflexivity|]. split.
  - apply since_app. reflexivity.
  - intros Hlt. unfold to_size_t. apply Z.mod_small. lia.
Qed.

Lemma open_success_path_witness :
  let P := const_platform 3 4096 140000 0 0 0 attr_zero in
  perf_counter_open P attr_zero (-1) initial_world =
    (mk_pc 3 140000,
     mk_world [EvPerfEventOpen attr_zero 0 (-1) (-1) 0;
               EvSysconf _SC_PAGESIZE;
               EvMmap NULL 4096 PROT_READ MAP_SHARED 3 0]
       STATE_UNINITIALIZED).
Proof.
  intros P.
  pose proof (open_success_path P attr_zero (-1) initial_world) as H.
  cbv zeta in H. destruct H as (H1 & H2 & _).
  - vm_compute. discriminate.
  - vm_compute. discriminate.
  - vm_compute. discriminate.
  - vm_compute. discriminate.
  - reflexivity.
Defined.

(** X3. A descriptor the gateway hands out is either returned in the handle
    or closed exactly once, never both and never neither: with [fd0 >= 0],
    either the handle is open on [fd0] and [perf_counter_open] has closed
    nothing, or the handle is the closed pair and the only [close] is
    [close (fd0)].  With [fd0 < 0] the gateway call is the only call made.
    [perf_counter_open] never unmaps. *)
Theorem open_descriptor_accounting (P : Platform) attr g w :
  let fd0 := to_int32 (k_perf_event_open P (trace w) attr 0 (-1) g 0) in
  let h := fst (perf_counter_open P attr g w) in
  let d := since w (snd (perf_counter_open P attr g w)) in
  (fd0 < 0 -> h = closed_handle /\ d = [EvPerfEventOpen attr 0 (-1) g 0]) /\
  (0 <= fd0 ->
     (fd h = fd0 /\ metadata_page h <> NULL /\ filter is_close d = []) \/
     (h = closed_handle /\ filter is_close d = [EvClose fd0])) /\
  filter is_munmap d = [].
Proof.
  intros fd0 h d. subst h d.
  pose proof (perf_counter_open_paths P attr g w) as Hp. cbv zeta in Hp.
  fold fd0 in Hp. rewrite Hp. clear Hp.
  destruct (Z.ltb_spec fd0 0) as [Hfd|Hfd].
  { cbn [fst snd]. erewrite since_app by reflexivity.
    repeat split; auto. lia. }
  split; [lia|].
  repeat match goal with
         | |- context [if ?c then _ else _] =>
             lazymatch c with
             | Z.eqb ?a ?b => destruct (Z.eqb_spec a b)
             | _ => destruct c
             end
         end;
    cbn [fst snd]; (erewrite since_app by reflexivity);
    (split; [intros _|reflexivity]);
    try (right; split; reflexivity).
  left. repeat split; auto.
Qed.

(** X4. An [mmap] that answers address zero is taken for a failure: the
    descriptor is closed and the closed pair returned, and the region the
    kernel mapped is not unmapped. *)
Theorem open_drops_mapping_at_null (P : Platform) attr g w :
  let E := EvPerfEventOpen attr 0 (-1) g 0 in
  let fd0 := to_int32 (k_perf_event_open P (trace w) attr 0 (-1) g 0) in
  let ps := k_sysconf P (trace w ++ [E]) _SC_PAGESIZE in
  0 <= fd0 -> 1 <= ps ->
  k_mmap P (trace w ++ [E; EvSysconf _SC_PAGESIZE]) NULL (to_size_t ps)
    PROT_READ MAP_SHARED fd0 0 = NULL ->
  fst (perf_counter_open P attr g w) = closed_handle /\
  since w (snd (perf_counter_open P attr g w)) =
    [E; EvSysconf _SC_PAGESIZE;
     EvMmap NULL (to_size_t ps) PROT_READ MAP_SHARED fd0 0; EvClose fd0].
Proof.
  intros E fd0 ps Hfd Hps Hm.
  pose proof (perf_counter_open_paths P attr g w) as Hp. cbv zeta in Hp.
  fold E fd0 ps in Hp. rewrite Hp, Hm.
  destruct (Z.ltb_spec fd0 0); [lia|]. destruct (Z.ltb_spec ps 1); [lia|].
  cbn. split; [reflexivity|]. apply since_app. reflexivity.
Qed.

Lemma open_drops_mapping_at_null_witness :
  let P := const_platform 3 4096 NULL 0 0 0 attr_zero in
  fst (perf_counter_open P attr_zero (-1) initial_world) = closed_handle /\
  filter is_munmap
    (since initial_world (snd (perf_counter_open P attr_zero (-1) initial_world)))
    = [].
Proof.
  intros P.
  pose proof (open_drops_mapping_at_null P attr_zero (-1) initial_world) as H.
  cbv zeta in H. destruct H as (H1 & H2).
  - vm_compute. discriminate.
  - vm_compute. discriminate.
  - reflexivity.
  - split; [exact H1|]. rewrite H2. reflexivity.
Defined.

(** ** Teardown, call by call *)

(** X6. [perf_counter_close] releases exactly what the handle holds, the
    mapping first: when the mapping is not null it asks for the page size
    and unmaps that many bytes at the mapping's address (or reports the
    failed query and unmaps nothing); then, when the descriptor is anything
    but [-1], negative values included, it closes it.  Fields at their
    sentinel cost no call. *)
Theorem close_releases_what_is_held (P : Platform) pc w :
  let ps := k_sysconf P (trace w) _SC_PAGESIZE in
  since w (snd (perf_counter_close P pc w)) =
    (if metadata_page pc =? NULL then []
     else EvSysconf _SC_PAGESIZE ::
          (if ps <? 1 then [EvPerror "sysconf(_SC_PAGESIZE)"]
           else [EvMunmap (metadata_page pc) (to_size_t ps)])) ++
    (if fd pc =? -1 then [] else [EvClose (fd pc)]) /\
  current_state (snd (perf_counter_close P pc w)) = current_state w.
Proof.
  intros ps. unfold perf_counter_close.
  destruct (metadata_page pc =? NULL); cbn [negb].
  - destruct (fd pc =? -1); cbn; split; auto.
    + apply since_refl.
    + apply since_app. reflexivity.
  - destruct (get_page_size_cases P w) as [[Hps E]|[Hps E]]; rewrite E;
      clear E; fold ps in Hps; fold ps.
    + destruct (Z.ltb_spec ps 1); [|lia]. cbn [fd metadata_page Z.ltb].
      change (0 <? -1) with false. cbv iota. cbn [fd].
      destruct (fd pc =? -1); cbn; (split; [|reflexivity]); apply since_app;
        cbn; rewrite <- ?app_assoc; reflexivity.
    + destruct (Z.ltb_spec ps 1); [lia|]. destruct (Z.ltb_spec 0 ps); [|lia].
      cbn [fd].
      destruct (fd pc =? -1); cbn; (split; [|reflexivity]); apply since_app;
        cbn; rewrite <- ?app_assoc; reflexivity.
Qed.

(** X5. Opening and closing pair up.  If [perf_counter_open] returned an
    open handle, then it mapped one region of the page size [ps] it was
    told, and a later [perf_counter_close] of that handle, in any world
    where the page size is still [ps], unmaps the same address with the
    same length, then closes the same descriptor, and leaves the closed
    pair. *)
Theorem open_then_close_round_trip (P : Platform) attr g w w2 :
  let h := fst (perf_counter_open P attr g w) in
  let w1 := snd (perf_counter_open P attr g w) in
  let ps :=
    k_sysconf P (trace w ++ [EvPerfEventOpen attr 0 (-1) g 0]) _SC_PAGESIZE in
  fully_open h ->
  k_sysconf P (trace w2) _SC_PAGESIZE = ps ->
  since w w1 =
    [EvPerfEventOpen attr 0 (-1) g 0; EvSysconf _SC_PAGESIZE;
     EvMmap NULL (to_size_t ps) PROT_READ MAP_SHARED (fd h) 0] /\
  fst (perf_counter_close P h w2) = closed_handle /\
  since w2 (snd (perf_counter_close P h w2)) =
    [EvSysconf _SC_PAGESIZE; EvMunmap (metadata_page h) (to_size_t ps);
     EvClose (fd h)].
Proof.
  intros h w1 ps [Hfd Hpage] Hps2. subst h w1.
  pose proof (perf_counter_open_paths P attr g w) as Hp. cbv zeta in Hp.
  fold ps in Hp. rewrite Hp in *. clear Hp.
  set (fd0 := to_int32 _) in *.
  destruct (Z.ltb_spec fd0 0); [cbn in Hfd; lia|].
  destruct (Z.ltb_spec ps 1) as [|Hps]; [cbn in Hfd; lia|].
  set (m := k_mmap P _ _ _ _ _ _ _) in *.
  destruct (m =? MAP_FAILED); [cbn in Hfd; lia|].
  destruct (Z.eqb_spec m NULL) as [|Hm]; [cbn in Hfd; lia|].
  cbn [fst snd fd metadata_page] in *.
  split; [apply since_app; reflexivity|].
  split; [apply perf_counter_close_handle|].
  unfold perf_counter_close. cbn [fd metadata_page].
  destruct (Z.eqb_spec m NULL); [contradiction|]. cbn [negb].
  destruct (get_page_size_cases P w2) as [[Hlt _]|[_ E]];
    [cbv zeta in Hlt; lia|].
  rewrite E, Hps2. destruct (Z.ltb_spec 0 ps); [|lia]. cbn [fd].
  destruct (Z.eqb_spec fd0 (-1)); [lia|]. cbn.
  apply since_app. cbn. rewrite <- ?app_assoc. reflexivity.
Qed.

Lemma open_then_close_round_trip_witness :
  let P := const_platform 3 4096 140000 0 0 0 attr_zero in
  let w1 := snd (perf_counter_open P attr_zero (-1) initial_world) in
  since w1 (snd (perf_counter_close P (mk_pc 3 140000) w1)) =
    [EvSysconf _SC_PAGESIZE; EvMunmap 140000 4096; EvClose 3].
Proof.
  intros P w1.
  pose proof (open_then_close_round_trip P attr_zero (-1) initial_world w1)
    as H.
  cbv zeta in H. destruct H as (_ & _ & H3).
  - split; vm_compute; discriminate.
  - reflexivity.
  - exact H3.
Defined.

(** ** Sequential histories of the public functions *)

Lemma perf_counter_open_effect (P : Platform) attr g w :
  exists d,
    trace (snd (perf_counter_open P attr g w)) = trace w ++ d /\
    forallb event_ok d = true /\
    filter is_pfm_initialize d = [] /\
    current_state (snd (perf_counter_open P attr g w)) = current_state w.
Proof.
  pose proof (perf_counter_open_paths P attr g w) as Hp. cbv zeta in Hp.
  rewrite Hp. clear Hp.
  repeat match goal with
         | |- context [if ?c then _ else _] => destruct c
         end;
    cbn [fst snd trace current_state]; eexists;
    (split; [reflexivity|]); repeat split; reflexivity.
Qed.

Lemma perf_counter_close_effect (P : Platform) pc w :
  exists d,
    trace (snd (perf_counter_close P pc w)) = trace w ++ d /\
    forallb event_ok d = true /\
    filter is_pfm_initialize d = [] /\
    current_state (snd (perf_counter_close P pc w)) = current_state w.
Proof.
  unfold perf_counter_close.
  destruct (metadata_page pc =? NULL); cbn [negb].
  - destruct (fd pc =? -1); cbn.
    + exists []. rewrite app_nil_r. auto.
    + exists [EvClose (fd pc)]. auto.
  - destruct (get_page_size_cases P w) as [[_ E]|[_ E]]; rewrite E; clear E;
      cbn [fd].
    + destruct (fd pc =? -1); cbn; eexists;
        (split; [rewrite <- ?app_assoc; reflexivity|]); auto.
    + destruct (0 <? k_sysconf P (trace w) _SC_PAGESIZE);
        destruct (fd pc =? -1); cbn; eexists;
        (split; [rewrite <- ?app_assoc; reflexivity|]); auto.
Qed.

(** After a guard that answered [true], [perf_counter_open_by_name] asks
    for the translation and, if that succeeds, opens. *)
Lemma open_by_name_after_guard (P : Platform) name g w w1 :
  ensure_libpfm_initialized P w = Some (true, w1) ->
  exists h w' d,
    perf_counter_open_by_name P name g w = Some (h, w') /\
    trace w' = trace w1 ++ d /\ forallb event_ok d = true /\
    filter is_pfm_initialize d = [] /\
    current_state w' = current_state w1.
Proof.
  intros E. unfold perf_counter_open_by_name, pfm_get_os_event_encoding.
  rewrite E. cbv beta iota zeta. change (negb true) with false. cbv iota.
  destruct (k_pfm_get_os_event_encoding P _ _ _ _ _) as [ret a].
  destruct (ret =? PFM_SUCCESS); cbn [negb].
  - match goal with
    | |- context [perf_counter_open P ?a' g ?w2] =>
        destruct (perf_counter_open_effect P a' g w2) as (d & Ht & Ho & Hi & Hs);
        exists (fst (perf_counter_open P a' g w2)),
          (snd (perf_counter_open P a' g w2)),
          (EvPfmEncode name PFM_PLM3 PFM_OS_PERF_EVENT_EXT
             (attr_set_size attr_zero (sizeof_perf_event_attr P)) :: d)
    end.
    split; [rewrite <- surjective_pairing; reflexivity|].
    split; [rewrite Ht; cbn; rewrite <- app_assoc; reflexivity|].
    split; [cbn; exact Ho|]. split; [cbn; exact Hi|exact Hs].
  - eexists; eexists; eexists. split; [reflexivity|].
    split; [reflexivity|]. auto.
Qed.

(** What one call of a public function does to the history and to the
    guard's state, whenever it returns. *)
Lemma do_call_effect (P : Platform) c w w' :
  do_call P c w = Some w' ->
  exists d,
    trace w' = trace w ++ d /\ forallb event_ok d = true /\
    ((current_state w' = current_state w /\
      filter is_pfm_initialize d = []) \/
     (current_state w = STATE_UNINITIALIZED /\
      terminal (current_state w') = true /\
      filter is_pfm_initialize d = [EvPfmInitialize])).
Proof.
  destruct c as [attr g|ty cfg g|name g|pc|pc|pc]; cbn [do_call]; intros H.
  - inversion H; subst; clear H.
    destruct (perf_counter_open_effect P attr g w) as (d & Ht & Ho & Hi & Hs).
    exists d. auto.
  - inversion H; subst; clear H. unfold perf_counter_open_by_id.
    match goal with
    | |- context [perf_counter_open P ?a g w] =>
        destruct (perf_counter_open_effect P a g w) as (d & Ht & Ho & Hi & Hs)
    end.
    exists d. auto.
  - pose proof (ensure_libpfm_initialized_cases P w) as C.
    destruct (current_state w) eqn:Ew; cbv zeta in C.
    + (* first use: the guard initialises *)
      destruct (k_pfm_initialize P (trace w) =? PFM_SUCCESS) eqn:Er.
      * destruct (open_by_name_after_guard P name g w _ C)
          as (h & w2 & d & E & Ht & Ho & Hi & Hs).
        rewrite E in H. inversion H; subst; clear H.
        exists (EvPfmInitialize :: d). cbn [trace current_state] in *.
        split; [rewrite Ht, <- app_assoc; reflexivity|].
        split; [exact Ho|]. right. rewrite Hs. cbn. rewrite Hi. auto.
      * unfold perf_counter_open_by_name in H. rewrite C in H. cbn in H.
        inversion H; subst; clear H. exists [EvPfmInitialize].
        cbn. split; [reflexivity|]. split; [reflexivity|]. right. auto.
    + unfold perf_counter_open_by_name in H. rewrite C in H. discriminate.
    + destruct (open_by_name_after_guard P name g w _ C)
        as (h & w2 & d & E & Ht & Ho & Hi & Hs).
      rewrite E in H. inversion H; subst; clear H.
      exists d. rewrite Hs. auto.
    + unfold perf_counter_open_by_name in H. rewrite C in H. cbn in H.
      inversion H; subst; clear H. exists []. rewrite app_nil_r. auto.
  - inversion H; subst; clear H.
    destruct (perf_counter_close_effect P pc w) as (d & Ht & Ho & Hi & Hs).
    exists d. auto.
  - inversion H; subst; clear H. eexists. split; [reflexivity|]. cbn. auto.
  - inversion H; subst; clear H. eexists. split; [reflexivity|]. cbn. auto.
Qed.

(** A call returns unless it is a call by name made while the state is
    [STATE_IN_PROGRESS]. *)
Lemma do_call_returns (P : Platform) c w :
  current_state w <> STATE_IN_PROGRESS -> exists w', do_call P c w = Some w'.
Proof.
  intros Hn. destruct c as [attr g|ty cfg g|name g|pc|pc|pc]; cbn [do_call];
    try (eexists; reflexivity).
  pose proof (ensure_libpfm_initialized_cases P w) as C.
  destruct (current_state w) eqn:Ew; cbv zeta in C; try contradiction.
  - destruct (k_pfm_initialize P (trace w) =? PFM_SUCCESS).
    + destruct (open_by_name_after_guard P name g w _ C)
        as (h & w2 & d & E & _). rewrite E. eexists; reflexivity.
    + unfold perf_counter_open_by_name. rewrite C. eexists; reflexivity.
  - destruct (open_by_name_after_guard P name g w _ C)
      as (h & w2 & d & E & _). rewrite E. eexists; reflexivity.
  - unfold perf_counter_open_by_name. rewrite C. eexists; reflexivity.
Qed.

Lemma do_calls_settled (P : Platform) cs : forall w,
  guard_settled w ->
  exists w', do_calls P cs w = Some w' /\ guard_settled w'.
Proof.
  induction cs as [|c cs IH]; intros w Hw; cbn [do_calls].
  - exists w. auto.
  - assert (Hn : current_state w <> STATE_IN_PROGRESS).
    { intros E. unfold guard_settled in Hw. rewrite E in Hw. exact Hw. }
    destruct (do_call_returns P c w Hn) as (w1 & E1). rewrite E1.
    apply IH.
    destruct (do_call_effect P c w w1 E1) as (d & Ht & _ & Hd).
    unfold guard_settled in *. rewrite Ht, filter_app.
    destruct Hd as [[Hs Hi]|(Hs & Hterm & Hi)]; rewrite Hi.
    + rewrite Hs, app_nil_r. exact Hw.
    + rewrite Hs in Hw. rewrite Hw.
      destruct (current_state w1); try discriminate; reflexivity.
Qed.

(** X7. In every sequential history of calls of the public functions,
    started before any initialisation: every call returns (a call by name is
    never left waiting), [pfm_initialize] has been called at most once, not
    at all while the state is [STATE_UNINITIALIZED] and exactly once after
    it has left it, and the state is never left at [STATE_IN_PROGRESS]. *)
Theorem sequential_history_settles_guard (P : Platform) cs :
  exists w',
    do_calls P cs initial_world = Some w' /\
    guard_settled w' /\
    current_state w' <> STATE_IN_PROGRESS /\
    (List.length (filter is_pfm_initialize (trace w')) <= 1)%nat /\
    (current_state w' = STATE_UNINITIALIZED <->
     filter is_pfm_initialize (trace w') = []).
Proof.
  destruct (do_calls_settled P cs initial_world) as (w' & E & Hs);
    [reflexivity|].
  exists w'. split; [exact E|]. split; [exact Hs|].
  unfold guard_settled in Hs.
  destruct (current_state w'); try contradiction; rewrite Hs; cbn;
    repeat split; try lia; try discriminate; auto.
Qed.

Lemma do_calls_effect (P : Platform) cs : forall w w',
  do_calls P cs w = Some w' ->
  exists d,
    trace w' = trace w ++ d /\ forallb event_ok d = true /\
    (terminal (current_state w) = true ->
     current_state w' = current_state w /\ filter is_pfm_initialize d = []).
Proof.
  induction cs as [|c cs IH]; intros w w' H; cbn [do_calls] in H.
  - inversion H; subst. exists []. rewrite app_nil_r. auto.
  - destruct (do_call P c w) as [w1|] eqn:E1; [|discriminate].
    destruct (do_call_effect P c w w1 E1) as (d1 & T1 & O1 & D1).
    destruct (IH w1 w' H) as (d2 & T2 & O2 & D2).
    exists (d1 ++ d2). split; [rewrite T2, T1, app_assoc; reflexivity|].
    split; [rewrite forallb_app, O1, O2; reflexivity|].
    intros Hterm.
    destruct D1 as [[S1 I1]|(S1 & _)];
      [|rewrite S1 in Hterm; discriminate].
    rewrite <- S1 in Hterm. destruct (D2 Hterm) as [S2 I2].
    split; [congruence|]. rewrite filter_app, I1, I2. reflexivity.
Qed.

(** X8. Once the guard's state is terminal, success as well as failure, it
    is permanent: after any further calls of the public functions, which
    all return, the state is the same and [pfm_initialize] has not been
    called again. *)
Theorem terminal_state_is_permanent (P : Platform) cs w :
  terminal (current_state w) = true ->
  exists w',
    do_calls P cs w = Some w' /\
    current_state w' = current_state w /\
    filter is_pfm_initialize (since w w') = [].
Proof.
  intros Hterm.
  assert (Hn : forall cs0 w0, terminal (current_state w0) = true ->
            exists w1, do_calls P cs0 w0 = Some w1).
  { induction cs0 as [|c cs0 IH]; intros w0 H0; cbn [do_calls].
    - eexists; reflexivity.
    - destruct (do_call_returns P c w0) as (w1 & E1).
      { intros E. rewrite E in H0. discriminate. }
      rewrite E1. apply IH.
      destruct (do_call_effect P c w0 w1 E1) as (d & _ & _ & D).
      destruct D as [[S _]|(S & _)]; [rewrite S; exact H0|].
      rewrite S in H0. discriminate. }
  destruct (Hn cs w Hterm) as (w' & E). exists w'. split; [exact E|].
  destruct (do_calls_effect P cs w w' E) as (d & Ht & _ & D).
  destruct (D Hterm) as [S I]. split; [exact S|].
  rewrite (since_app _ _ _ Ht). exact I.
Qed.

Lemma terminal_state_is_permanent_witness :
  let P := const_platform 3 4096 140000 0 0 0 attr_zero in
  let w := mk_world [EvPfmInitialize] STATE_SUCCESS in
  exists w',
    do_calls P [CallOpenByName "cycles" (-1); CallEnable (mk_pc 3 140000);
                CallOpenByName "instructions" 3] w = Some w' /\
    current_state w' = STATE_SUCCESS /\
    filter is_pfm_initialize (since w w') = [].
Proof.
  intros P w.
  exact (terminal_state_is_permanent P
           [CallOpenByName "cycles" (-1); CallEnable (mk_pc 3 140000);
            CallOpenByName "instructions" 3] w eq_refl).
Defined.

(** X9. Whatever the arguments of the public calls, the calls that leave
    the process keep to fixed arguments: every gateway call is for the
    calling process on any CPU with no flags; every mapping is requested at
    no fixed address, read-only, shared, from offset zero; every control
    request is [ENABLE] or [DISABLE] with the group flag; every translation
    is asked for user level only through the extended perf_event layer.  The
    history only grows. *)
Theorem outside_calls_keep_fixed_arguments (P : Platform) cs w w' :
  do_calls P cs w = Some w' ->
  trace w' = trace w ++ since w w' /\
  forallb event_ok (since w w') = true.
Proof.
  intros H. destruct (do_calls_effect P cs w w' H) as (d & Ht & Ho & _).
  rewrite (since_app _ _ _ Ht). auto.
Qed.

Lemma outside_calls_keep_fixed_arguments_witness :
  let P := const_platform 3 4096 140000 0 0 0 attr_zero in
  exists w',
    do_calls P [CallOpenById 0 1 (-1); CallOpenByName "cycles" 3;
                CallDisable (mk_pc 3 140000); CallClose (mk_pc 3 140000)]
      initial_world = Some w' /\
    forallb event_ok (since initial_world w') = true.
Proof.
  intros P.
  set (cs := [CallOpenById 0 1 (-1); CallOpenByName "cycles" 3;
              CallDisable (mk_pc 3 140000); CallClose (mk_pc 3 140000)]).
  destruct (do_calls P cs initial_world) as [w'|] eqn:E;
    [|vm_compute in E; discriminate].
  exists w'. split; [reflexivity|].
  exact (proj2 (outside_calls_keep_fixed_arguments P cs initial_world w' E)).
Defined.

(** * Further properties of the guard under interleaving *)

(** X10. Under every interleaving, a value returned by
    [ensure_libpfm_initialized] to any caller is the outcome of the one
    call of [pfm_initialize]: [true] exactly when that call returned
    [PFM_SUCCESS]; and the stored state is [STATE_SUCCESS] exactly then. *)
Theorem returned_value_is_outcome_of_the_call (sched : list (nat * Z)) :
  let s := run sched init in
  (forall t b, In (t, b) (returned s) ->
     exists w r, init_calls s = [(w, r)] /\ cas_winners s = [w] /\
                 b = (r =? PFM_SUCCESS)) /\
  (forall w r, In (w, r) (init_calls s) ->
     (shared s = STATE_SUCCESS -> r = PFM_SUCCESS) /\
     (shared s = STATE_FAILED -> r <> PFM_SUCCESS)).
Proof.
  intros s. assert (H : Inv s) by (apply Inv_run, Inv_init).
  unfold Inv in H. destruct (shared s) eqn:Es.
  - destruct H as (_ & Hi & _ & Hr & _). rewrite Hi, Hr.
    split; intros ? ? [].
  - destruct H as (w & _ & _ & Hr & _). rewrite Hr.
    split; [intros ? ? []|]. intros; split; discriminate.
  - destruct H as (w & r & Hw & Hi & _ & HT & _ & Hret). rewrite Hi.
    unfold result_of in HT. destruct (Z.eqb_spec r PFM_SUCCESS) as [Hr|Hr];
      [|discriminate].
    split.
    + intros t b Hin. exists w, r. rewrite (Hret t b Hin).
      destruct (Z.eqb_spec r PFM_SUCCESS); [auto|contradiction].
    + intros w0 r0 [X|[]]. inversion X; subst. split; [auto|discriminate].
  - destruct H as (w & r & Hw & Hi & _ & HT & _ & Hret). rewrite Hi.
    unfold result_of in HT. destruct (Z.eqb_spec r PFM_SUCCESS) as [Hr|Hr];
      [discriminate|].
    split.
    + intros t b Hin. exists w, r. rewrite (Hret t b Hin).
      destruct (Z.eqb_spec r PFM_SUCCESS); [contradiction|auto].
    + intros w0 r0 [X|[]]. inversion X; subst. split; [discriminate|auto].
Qed.

(** X11. No caller can be locked out.  From every state the threads can
    reach, for every thread and whatever [pfm_initialize] returns: a thread
    outside the function that takes a step either returns at once the
    result already stored or is inside the function afterwards; and a
    thread inside the function is brought out of it, with a value returned
    to it, by at most five further steps, each taken by the thread itself or
    by the thread that won the exchange.  No other thread has to move. *)
Theorem every_caller_can_return (sched : list (nat * Z)) (t : nat) (r : Z) :
  let s := run sched init in
  (threads s t = Idle ->
     (terminal (shared s) = true /\
      threads (step t r s) t = Idle /\
      returned (step t r s) =
        returned s ++ [(t, init_state_eqb (shared s) STATE_SUCCESS)]) \/
     (terminal (shared s) = false /\ threads (step t r s) t = AtCas /\
      returned (step t r s) = returned s)) /\
  (threads s t <> Idle ->
     exists ts,
       (List.length ts <= 5)%nat /\
       Forall (fun u => u = t \/ In u (cas_winners s)) ts /\
       threads (run (map (fun u => (u, r)) ts) s) t = Idle /\
       exists l b,
         returned (run (map (fun u => (u, r)) ts) s) =
           returned s ++ l ++ [(t, b)]).
Proof.
  intros s. assert (H : Inv s) by (apply Inv_run, Inv_init).
  split.
  - apply step_from_outside.
  - apply call_completes, H.
Qed.
